(** * Medical-Online-Manual: the console health assistant

    A shallow embedding of [Copy_of_backend_model_2.py] and the properties
    its specification states about it.

    Conventions of the embedding.
    - A Python [str] is a [string] whose characters are read as the code
      points U+0000..U+00FF; [lower], [strip], [\d] and [int] are modelled
      as Python defines them on these code points.
    - A pandas table is a list of named columns.  A column is either a text
      column (dtype [object], cells are text or null, which is what
      [read_csv] builds for a column of names or remedies) or a column of
      another dtype (numbers, or null only).
    - A Python exception is a value of [exn]; a call that can raise returns
      a [result].
    - Console input and output, and the calls made to the collaborators,
      are recorded in a [world]: the lines still to be read and the log of
      what happened so far.  The conversation is a computation over worlds
      that ends normally, with an exception, or is still in its loop when
      the bound on the number of passes is reached.
    - The pretrained model, the two tables and the geolocation service are
      parameters of the conversation. *)

From Stdlib Require Import Ascii String NArith ZArith Floats.PrimFloat.
From stdpp Require Import base option list strings gmap pretty.

Open Scope string_scope.
Open Scope list_scope.

(** ** Python strings *)

Module Py.

Definition ord (c : ascii) : N := N_of_ascii c.

(** [str.isspace] on one character: TAB..CR, FS..US, space, NEL, NBSP. *)
Definition isspace (c : ascii) : bool :=
  let n := ord c in
  ((9 <=? n) && (n <=? 13) || (28 <=? n) && (n <=? 32)
   || (n =? 133) || (n =? 160))%N.

(** [\d] of the [re] module, and a decimal digit for [int]. *)
Definition isdigit (c : ascii) : bool :=
  let n := ord c in ((48 <=? n) && (n <=? 57))%N.

Definition isupper (c : ascii) : bool :=
  let n := ord c in
  ((65 <=? n) && (n <=? 90)
   || (192 <=? n) && (n <=? 222) && negb (n =? 215))%N.

Definition lower_char (c : ascii) : ascii :=
  if isupper c then ascii_of_N (ord c + 32) else c.

(** [s.lower()] *)
Fixpoint lower (s : string) : string :=
  match s with
  | EmptyString => EmptyString
  | String c s' => String (lower_char c) (lower s')
  end.

(** [s.lstrip()] *)
Fixpoint lstrip (s : string) : string :=
  match s with
  | EmptyString => EmptyString
  | String c s' => if isspace c then lstrip s' else s
  end.

(** [s.rstrip()] *)
Fixpoint rstrip (s : string) : string :=
  match s with
  | EmptyString => EmptyString
  | String c s' =>
      match rstrip s' with
      | EmptyString => if isspace c then EmptyString else String c EmptyString
      | r => String c r
      end
  end.

(** [s.strip()] *)
Definition strip (s : string) : string := lstrip (rstrip s).

Fixpoint all_chars (p : ascii → bool) (s : string) : bool :=
  match s with
  | EmptyString => true
  | String c s' => p c && all_chars p s'
  end.

(** [re.fullmatch(r'\d+', s)] as a truth value. *)
Definition fullmatch_digits (s : string) : bool :=
  match s with
  | EmptyString => false
  | _ => all_chars isdigit s
  end.

(** A Python object as far as the program looks at it: text, or something
    that is not text (a number, a boolean), kept as the text [str()] gives
    for it. *)
Inductive obj :=
  | Str (s : string)
  | Other (shown : string).

(** [str(o)], as used by an f-string. *)
Definition str (o : obj) : string :=
  match o with Str s => s | Other shown => shown end.

Inductive exn :=
  | KeyError | AttributeError | ValueError | OverflowError
  | EOFError | IndexError | OSError.

Inductive result (A : Type) :=
  | Ok (a : A)
  | Raise (e : exn).
Global Arguments Ok {A} a.
Global Arguments Raise {A} e.

End Py.
Import Py.

(** ** pandas tables *)

Module Pandas.

(** The cells of a column, [None] being the null value (NaN).  A text
    column has dtype [object] and holds texts; a column of another dtype
    (numbers, booleans, or nothing but nulls) keeps for each value the text
    [str()] gives for it. *)
Inductive column :=
  | TextCol (cells : list (option string))
  | NumCol (cells : list (option string)).

Record Series := { name : string; data : column }.

Definition DataFrame := list Series.

(** The elements of a column as Python objects. *)
Definition values (c : column) : list (option obj) :=
  match c with
  | TextCol cells => (λ c : option string, Str <$> c) <$> cells
  | NumCol cells => (λ c : option string, Other <$> c) <$> cells
  end.

(** [df[key].str]: the cells of the column labelled [key].  A missing
    label raises KeyError; a column that is not text has no [.str]
    accessor, and neither has the frame that a repeated label selects. *)
Definition getitem_str (df : DataFrame) (key : string)
  : result (list (option string)) :=
  match filter (λ c, name c = key) df with
  | [] => Raise KeyError
  | [c] => match data c with
           | TextCol cells => Ok cells
           | NumCol _ => Raise AttributeError
           end
  | _ => Raise AttributeError
  end.

(** [col.str.lower().str.strip() == x]: the boolean mask, null compares
    unequal. *)
Definition eq_mask (cells : list (option string)) (x : string) : list bool :=
  (λ c, match c with
        | Some s => bool_decide (strip (lower s) = x)
        | None => false
        end) <$> cells.

(** Position of the first row a mask selects: row 0 of [df[mask]]. *)
Definition first_selected (mask : list bool) : option nat :=
  fst <$> list_find (λ b, b = true) mask.

(** [df[mask].iloc[0, lo:hi]], given the position [i] of that row in [df]. *)
Definition iloc_row (df : DataFrame) (i lo hi : nat) : list (option obj) :=
  (λ c, mjoin (values (data c) !! i)) <$> take (hi - lo) (drop lo df).

(** [.dropna().tolist()] *)
Definition dropna_tolist (row : list (option obj)) : list obj :=
  omap id row.

End Pandas.
Import Pandas.

(** ** The two lookups (lines 22-36) *)

Definition get_remedies_for_disease (disease : string) (remedies_df : DataFrame)
  : result (list obj) :=
  match getitem_str remedies_df "DISEASE NAME" with
  | Raise e => Raise e
  | Ok names =>
      match first_selected (eq_mask names (strip (lower disease))) with
      | Some i => Ok (dropna_tolist (iloc_row remedies_df i 1 7))
      | None => Ok []
      end
  end.

Definition get_otc_for_disease (disease : string) (otc_df : DataFrame)
  : result (list obj) :=
  match getitem_str otc_df "Diseases" with
  | Raise e => Raise e
  | Ok names =>
      match first_selected (eq_mask names (strip (lower disease))) with
      | Some i => Ok (dropna_tolist (iloc_row otc_df i 1 5))
      | None => Ok []
      end
  end.

(** ** The console and the collaborators *)

Module Console.

(** A coordinate as the geolocation collaborator returns it. *)
Inductive coord :=
  | CNone
  | CInt (z : Z)
  | CFloat (f : float).

(** Truth value of a coordinate in [if lat and lng]: None, 0 and 0.0 are
    false. *)
Definition truthy (c : coord) : bool :=
  match c with
  | CNone => false
  | CInt z => negb (z =? 0)%Z
  | CFloat f => negb (PrimFloat.eqb f 0%float)
  end.

(** What [symptom_model.predict] returns for the vectorized input: the
    program uses only its truth value ([if matched_symptoms]) and its
    elements. *)
Record prediction := { truth : bool; items : list obj }.

(** The loaded artifacts, the two tables and the geolocation service. *)
Record collaborators := {
  predict : string → prediction;
  remedies_df : DataFrame;
  otc_df : DataFrame;
  get_geolocation : string → coord * coord
}.

(** What the conversation does that can be seen from outside: the prompt
    of an [input], a [print], and the calls to the model, to the two
    lookups and to the two location services, each logged when it is made;
    the geolocation call is logged with the pair it returned. *)
Inductive event :=
  | Prompt (text : string)
  | Print (text : string)
  | Predict (text : string)
  | RemediesLookup (disease : string)
  | OtcLookup (disease : string)
  | Geolocation (location : string) (lat lng : coord)
  | NearbyServices (lat lng : coord).

(** The lines still to be read ([[]] is end of input) and what happened so
    far, oldest first. *)
Record world := { stdin : list string; log : list event }.

Inductive outcome (A : Type) :=
  | Done (a : A) (w : world)
  | Raised (e : exn) (w : world)
  | Running (w : world).
Global Arguments Done {A} a w.
Global Arguments Raised {A} e w.
Global Arguments Running {A} w.

Definition final {A} (o : outcome A) : world :=
  match o with Done _ w | Raised _ w | Running w => w end.

Definition M (A : Type) : Type := world → outcome A.

Global Instance M_ret : MRet M := λ A a w, Done a w.
Global Instance M_bind : MBind M := λ A B k m w,
  match m w with
  | Done a w' => k a w'
  | Raised e w' => Raised e w'
  | Running w' => Running w'
  end.

Definition emit (e : event) : M unit :=
  λ w, Done () {| stdin := stdin w; log := log w ++ [e] |}.

Definition print (text : string) : M unit := emit (Print text).

Definition raise {A} (e : exn) : M A := λ w, Raised e w.

(** A call to a function of this program that can raise. *)
Definition lift {A} (r : result A) : M A :=
  match r with Ok a => mret a | Raise e => raise e end.

(** [input(prompt)] on an open standard input: shows the prompt, returns
    the next line or raises EOFError at end of input.  A standard input
    that is closed or lost, where [input] raises ValueError or
    RuntimeError, is not part of this model. *)
Definition input (prompt : string) : M string :=
  λ w, let shown := log w ++ [Prompt prompt] in
       match stdin w with
       | [] => Raised EOFError {| stdin := []; log := shown |}
       | line :: rest => Done line {| stdin := rest; log := shown |}
       end.

(** Lines 38-43. *)
Definition safe_input (prompt : string) (default : string) : M string :=
  λ w, match (line ← input prompt; mret (strip line)) w with
       | Raised EOFError w' => Done default w'
       | o => o
       end.

Definition symptom_prompt : string :=
  "Please tell me your symptoms (e.g., headache, fever, etc.): ".
Definition otc_prompt : string :=
  "Do you want to know about OTC medicines for this? (yes/no): ".
Definition location_prompt : string :=
  "Please provide your address or city for nearby medical services: ".

Section Conversation.

Context (c : collaborators).

(** Lines 61-77, the body of [while True] after the read: [Some] is
    [break] with the detected symptoms, [None] goes round again. *)
Definition classify (user_input : string) : M (option (list string)) :=
  if fullmatch_digits user_input then
    print "Invalid input! Please enter valid symptoms (not numbers).";;
    mret None
  else
    emit (Predict user_input);;
    let matched_symptoms := predict c user_input in
    if truth matched_symptoms then
      (* [symptom for symptom in matched_symptoms if isinstance(symptom, str)] *)
      let detected_symptoms :=
        omap (λ symptom, match symptom with Str s => Some s | Other _ => None end)
             (items matched_symptoms) in
      match detected_symptoms with
      | _ :: _ => mret (Some detected_symptoms)
      | [] =>
          print "Invalid input! Please enter recognizable symptoms.";;
          mret None
      end
    else
      print "I couldn't recognize those symptoms. Please try again.";;
      mret None.

(** Lines 59-77: one pass through the body of [while True]. *)
Definition symptom_iteration : M (option (list string)) :=
  user_input ← safe_input symptom_prompt "fever";
  classify user_input.

(** Lines 58-77; [fuel] bounds the number of passes. *)
Fixpoint symptom_loop (fuel : nat) : M (list string) :=
  match fuel with
  | 0 => λ w, Running w
  | S fuel' =>
      r ← symptom_iteration;
      match r with
      | Some detected_symptoms => mret detected_symptoms
      | None => symptom_loop fuel'
      end
  end.

Fixpoint print_items (l : list obj) : M unit :=
  match l with
  | [] => mret ()
  | x :: l' => print ("- " +:+ str x);; print_items l'
  end.

(** Lines 80-89. *)
Definition show_remedies (disease : string) : M unit :=
  print ("I think you might have " +:+ disease +:+ ".");;
  emit (RemediesLookup disease);;
  remedies ← lift (get_remedies_for_disease disease (remedies_df c));
  match remedies with
  | _ :: _ => print "Here are some home remedies:";; print_items remedies
  | [] => print "No home remedies found for this disease."
  end.

(** Lines 95-106: what is done with the choice. *)
Definition otc_reply (disease otc_choice : string) : M unit :=
  if bool_decide (otc_choice = "yes") then
    emit (OtcLookup disease);;
    otc_medicines ← lift (get_otc_for_disease disease (otc_df c));
    match otc_medicines with
    | _ :: _ => print "Here are some OTC medicines you can try:";;
                print_items otc_medicines
    | [] => print "No OTC medicines found."
    end
  else if bool_decide (otc_choice = "no") then
    print "No OTC medicines will be displayed."
  else
    print "Invalid input. Please enter 'yes' or 'no'.".

(** Lines 92-106. *)
Definition otc_step (disease : string) : M unit :=
  answer ← safe_input otc_prompt "no";
  otc_reply disease (lower answer).

(** Lines 110-114: what is done with the location. *)
Definition locate (location : string) : M unit :=
  let '(lat, lng) := get_geolocation c location in
  emit (Geolocation location lat lng);;
  if truthy lat && truthy lng then
    emit (NearbyServices lat lng)
  else
    print "Sorry, I couldn't find that location. Please try again.".

(** Lines 109-114. *)
Definition location_step : M unit :=
  location ← safe_input location_prompt "New York";
  locate location.

(** Lines 79-114: what follows the loop. *)
Definition after_loop (detected_symptoms : list string) : M unit :=
  match detected_symptoms with
  | [] => raise IndexError
  | disease :: _ =>
      show_remedies disease;;
      otc_step disease;;
      location_step
  end.

(** Lines 45-114.  Lines 47-53 load the artifacts and the tables, here
    [c]: the conversation is modelled from the point where they are
    loaded, and the calls to the model and to the location services are
    taken to return. *)
Definition process_user_input (fuel : nat) : M unit :=
  print "Hello! I am your health assistant.";;
  detected_symptoms ← symptom_loop fuel;
  after_loop detected_symptoms.

End Conversation.

End Console.
Import Console.

(** ** The start of the script and the liveness responder (lines 116-135) *)

Module Server.

(** Whitespace that [int] skips around a number. *)
Definition int_isspace (c : ascii) : bool :=
  let n := ord c in
  ((9 <=? n) && (n <=? 13) || (n =? 32) || (n =? 133) || (n =? 160))%N.

Fixpoint int_lstrip (s : string) : string :=
  match s with
  | EmptyString => EmptyString
  | String c s' => if int_isspace c then int_lstrip s' else s
  end.

Fixpoint int_rstrip (s : string) : string :=
  match s with
  | EmptyString => EmptyString
  | String c s' =>
      match int_rstrip s' with
      | EmptyString => if int_isspace c then EmptyString else String c EmptyString
      | r => String c r
      end
  end.

Definition digit_value (c : ascii) : Z := Z.of_N (ord c) - 48.

(** Digits after the first one: a single underscore may sit between two
    digits.  [after_digit] tells whether the previous character was a
    digit. *)
Fixpoint int_digits (after_digit : bool) (acc : Z) (s : string) : option Z :=
  match s with
  | EmptyString => if after_digit then Some acc else None
  | String c s' =>
      if isdigit c then int_digits true (10 * acc + digit_value c) s'
      else if bool_decide (c = "_"%char) && after_digit then int_digits false acc s'
      else None
  end.

Definition int_unsigned (s : string) : option Z :=
  match s with
  | EmptyString => None
  | String c _ => if isdigit c then int_digits false 0 s else None
  end.

Fixpoint count_digits (s : string) : nat :=
  match s with
  | EmptyString => 0
  | String c s' => (if isdigit c then 1 else 0) + count_digits s'
  end.

(** [int(s)] for a text [s], base 10.  [limit] is the interpreter's bound
    on the number of digits ([sys.get_int_max_str_digits()], 4300 unless
    configured; [None] when the interpreter has no such bound). *)
Definition int_of_str (limit : option nat) (s : string) : result Z :=
  let t := int_lstrip (int_rstrip s) in
  let '(negative, body) :=
    match t with
    | String "+" r => (false, r)
    | String "-" r => (true, r)
    | _ => (false, t)
    end in
  match int_unsigned body with
  | None => Raise ValueError
  | Some v =>
      if match limit with Some n => bool_decide (n < count_digits body) | None => false end
      then Raise ValueError
      else Ok (if negative then - v else v)%Z
  end.

(** Line 123: [PORT = int(os.environ.get("PORT", 8080))]. *)
Definition PORT (limit : option nat) (environ : gmap string string) : result Z :=
  match environ !! "PORT" with
  | Some s => int_of_str limit s
  | None => Ok 8080%Z
  end.

(** What the script does from line 116 on, in order. *)
Inductive step :=
  | StartThread
  | Listen (port : Z)
  | Say (text : string)
  | ServeForever.

(** Lines 116-135.  The second component is the exception that ends the
    script, if any.  Creating the server binds the port: [bind port] is
    what the host answers for a port in 0..65535, [None] when the server
    is bound and listening, or the exception raised (OSError when the port
    is in use or may not be bound); a port outside 0..65535 is refused
    with OverflowError before the host is asked. *)
Definition script (limit : option nat) (bind : Z → option exn)
    (environ : gmap string string) : list step * option exn :=
  match PORT limit environ with
  | Raise e => ([StartThread], Some e)
  | Ok port =>
      if bool_decide (0 ≤ port ≤ 65535)%Z then
        match bind port with
        | None =>
            ([StartThread; Listen port; Say ("Serving at port " +:+ pretty port);
              ServeForever], None)
        | Some e => ([StartThread], Some e)
        end
      else ([StartThread], Some OverflowError)
  end.

End Server.
Import Server.

Module KeepAliveHandler.
















End KeepAliveHandler.
Import KeepAliveHandler.

(** ** Notions used to state the properties *)

(** [df] has exactly one column labelled [key], a text column with the
    cells [names]. *)
Definition key_column (df : DataFrame) (key : string)
    (names : list (option string)) : Prop :=
  filter (λ c, name c = key) df = [ {| name := key; data := TextCol names |} ].

(** Row [i] of the key column holds a name equal to [x] once lowercased
    and stripped. *)
Definition row_matches (names : list (option string)) (x : string) (i : nat) : Prop :=
  ∃ s, names !! i = Some (Some s) ∧ strip (lower s) = x.

(** The content of column [k] at row [i], if there is one and it is not
    null. *)
Definition cell (df : DataFrame) (i k : nat) : option obj :=
  match data <$> df !! k with
  | Some (TextCol cells) =>
      match cells !! i with Some (Some text) => Some (Str text) | _ => None end
  | Some (NumCol cells) =>
      match cells !! i with Some (Some shown) => Some (Other shown) | _ => None end
  | None => None
  end.



(** Row [i] is the first row whose name matches [x]. *)
Definition first_match (names : list (option string)) (x : string) (i : nat) : Prop :=
  row_matches names x i ∧ ∀ j, j < i → ¬ row_matches names x j.

(** The contents of columns 1..n at row [i] that are not null, in column
    order. *)
Definition row_values (df : DataFrame) (i n : nat) : list obj :=
  omap (cell df i) (seq 1 n).

Definition decimal_digit (ch : ascii) : Prop :=
  ch ∈ ["0"; "1"; "2"; "3"; "4"; "5"; "6"; "7"; "8"; "9"]%char.

(** The text is one or more of the characters 0..9, what [^\d+$] accepts. *)
Definition only_digits (s : string) : Prop :=
  s ≠ "" ∧ ∀ ch, ch ∈ list_ascii_of_string s → decimal_digit ch.

(** Events other than the two calls about the location. *)
Definition quiet (e : event) : Prop :=
  match e with
  | Geolocation _ _ _ | NearbyServices _ _ => False
  | _ => True
  end.

(** A computation that adds only quiet events to the log, however it
    ends. *)
Definition quiet_step {A} (m : M A) : Prop :=
  ∀ w, ∃ evs, log (final (m w)) = log w ++ evs ∧ Forall quiet evs.

(** A computation that either ends with [locate], after quiet events only,
    or adds only quiet events. *)
Definition ends_with_locate (c : collaborators) (m : M unit) : Prop :=
  ∀ w,
    (∃ location w' evs, m w = locate c location w'
        ∧ log w' = log w ++ evs ∧ Forall quiet evs)
    ∨ (∃ evs, log (final (m w)) = log w ++ evs ∧ Forall quiet evs).

(** A computation that never ends with EOFError. *)
Definition never_eof {A} (m : M A) : Prop :=
  ∀ w w', m w ≠ Raised EOFError w'.

Definition invalid_symptoms : string :=
  "Invalid input! Please enter valid symptoms (not numbers).".

Definition sorry : string :=
  "Sorry, I couldn't find that location. Please try again.".

(** Only whitespace that [int] accepts around a number: TAB, LF, VT, FF,
    CR, space, NEL, NBSP. *)
Definition blank (s : string) : Prop :=
  ∀ ch, ch ∈ list_ascii_of_string s →
    ch ∈ ["009"; "010"; "011"; "012"; "013"; " "; "133"; "160"]%char.

(** Decimal digits, with single underscores allowed between two digits. *)
Inductive digit_groups : string → Prop :=
  | groups_last ch :
      decimal_digit ch → digit_groups (String ch "")
  | groups_digit ch s :
      decimal_digit ch → digit_groups s → digit_groups (String ch s)
  | groups_underscore ch s :
      decimal_digit ch → digit_groups s → digit_groups (String ch (String "_" s)).

(** The text denotes a whole number in Python's sense: whitespace, an
    optional sign, digit groups, whitespace. *)
Definition numeric (s : string) : Prop :=
  ∃ l sign body r,
    s = l +:+ sign +:+ body +:+ r
    ∧ blank l ∧ blank r
    ∧ (sign = "" ∨ sign = "+" ∨ sign = "-")
    ∧ digit_groups body.

(** ** Sample data *)

Definition sample_remedies : DataFrame :=
  [ {| name := "DISEASE NAME"; data := TextCol [Some "Migraine"; Some " Fever "; Some "fever"] |};
    {| name := "HOMEREMEDY1"; data := TextCol [Some "rest"; Some "fluids"; Some "x"] |};
    {| name := "HOMEREMEDY2"; data := TextCol [None; None; Some "y"] |};
    {| name := "HOMEREMEDY3"; data := TextCol [Some "dark room"; Some "sponge bath"; None] |};
    {| name := "HOMEREMEDY4"; data := TextCol [Some "ginger tea"; None; None] |};
    {| name := "HOMEREMEDY5"; data := TextCol [None; None; None] |};
    {| name := "HOMEREMEDY6"; data := TextCol [None; None; None] |};
    {| name := "NOTES"; data := TextCol [Some "n1"; Some "n2"; Some "n3"] |} ].

Definition sample_otc : DataFrame :=
  [ {| name := "Diseases"; data := TextCol [Some "Fever"; None; Some "MIGRAINE "] |};
    {| name := "OTC1"; data := TextCol [Some "paracetamol"; Some "z"; Some "ibuprofen"] |};
    {| name := "OTC2"; data := TextCol [None; None; Some "aspirin"] |};
    {| name := "OTC3"; data := TextCol [Some "ibuprofen"; None; None] |};
    {| name := "OTC4"; data := TextCol [None; None; None] |};
    {| name := "EXTRA"; data := TextCol [Some "e1"; Some "e2"; Some "e3"] |} ].

Definition sample_predict (text : string) : prediction :=
  if bool_decide (text = "headache") then {| truth := true; items := [Str "Migraine"] |}
  else if bool_decide (text = "fever") then {| truth := true; items := [Other "7"; Str "Fever"] |}
  else if bool_decide (text = "???") then {| truth := true; items := [Other "0"] |}
  else {| truth := false; items := [] |}.

Definition sample_geolocation (location : string) : coord * coord :=
  if bool_decide (location = "Paris") then (CFloat 48.5, CFloat 2.25)
  else if bool_decide (location = "Greenwich") then (CFloat 51.5, CFloat 0)
  else if bool_decide (location = "Quito") then (CInt 0, CFloat (-78.5))
  else (CNone, CNone).

Definition sample : collaborators :=
  {| predict := sample_predict;
     remedies_df := sample_remedies;
     otc_df := sample_otc;
     get_geolocation := sample_geolocation |}.

Definition start (lines : list string) : world :=
  {| stdin := lines; log := [] |}.

(** ** Notions used to state further properties *)

(** The prompts shown, in order. *)
Definition prompts (l : list event) : list string :=
  omap (λ e, match e with Prompt text => Some text | _ => None end) l.

(** A computation that, when it ends normally, has read [k] lines and
    shown the prompts [ps]. *)
Definition reads (k : nat) (ps : list string) {A} (m : M A) : Prop :=
  ∀ w a w', m w = Done a w' →
    stdin w' = drop k (stdin w) ∧ prompts (log w') = prompts (log w) ++ ps.

(** A computation that adds only events satisfying [P] to the log, however
    it ends. *)
Definition logs_only (P : event → Prop) {A} (m : M A) : Prop :=
  ∀ w, ∃ evs, log (final (m w)) = log w ++ evs ∧ Forall P evs.

(** A computation that raises nothing outside [E] and, when it ends
    normally, returns a value satisfying [Q]. *)
Definition ends_in (E : exn → Prop) {A} (Q : A → Prop) (m : M A) : Prop :=
  ∀ w, match m w with
       | Done a _ => Q a
       | Raised e _ => E e
       | Running _ => True
       end.

(** The prediction for [text] has no text label the loop can use: its
    truth value is false or none of its elements is a text. *)
Definition unrecognised (c : collaborators) (text : string) : Prop :=
  truth (predict c text) = false
  ∨ ∀ s, Str s ∉ items (predict c text).

(** What the loop prints for a text that is not recognised. *)
Definition retry_message (c : collaborators) (text : string) : string :=
  if truth (predict c text)
  then "Invalid input! Please enter recognizable symptoms."
  else "I couldn't recognize those symptoms. Please try again.".

(** The texts among the labels, in order. *)
Fixpoint text_labels (l : list obj) : list string :=
  match l with
  | [] => []
  | Str s :: l' => s :: text_labels l'
  | Other _ :: l' => text_labels l'
  end.

(** The value of a text of decimal digits, most significant digit first. *)
Fixpoint positional (s : string) : Z :=
  match s with
  | EmptyString => 0
  | String ch s' => (Z.of_N (N_of_ascii ch) - 48) * 10 ^ Z.of_nat (String.length s') + positional s'
  end%Z.

(** The digits of a text, its underscores removed. *)
Fixpoint digits_of (s : string) : string :=
  match s with
  | EmptyString => EmptyString
  | String ch s' => if bool_decide (ch = "_"%char) then digits_of s' else String ch (digits_of s')
  end.

(** The text is a numeric text and [z] is the whole number it denotes. *)
Definition denotes (s : string) (z : Z) : Prop :=
  ∃ l sign body r,
    s = l +:+ sign +:+ body +:+ r
    ∧ blank l ∧ blank r
    ∧ digit_groups body
    ∧ ((sign = "" ∨ sign = "+") ∧ z = positional (digits_of body)
       ∨ sign = "-" ∧ z = (- positional (digits_of body))%Z).

(** A host on which every port can be bound, and one on which none can. *)
Definition free_host : Z → option exn := λ _, None.
Definition busy_host : Z → option exn := λ _, Some OSError.


(** A table whose key column was read as numbers, and collaborators whose
    model recognises nothing. *)
Definition numbered_remedies : DataFrame :=
  [ {| name := "DISEASE NAME"; data := NumCol [Some "1"; Some "2"] |};
    {| name := "HOMEREMEDY1"; data := TextCol [Some "rest"; Some "fluids"] |} ].

Definition bare_remedies : DataFrame :=
  [ {| name := "DISEASE NAME"; data := TextCol [Some "Migraine"; Some "Fever"] |};
    {| name := "HOMEREMEDY1"; data := TextCol [None; Some "fluids"] |} ].

Definition mute : collaborators :=
  {| predict := λ _, {| truth := false; items := [] |};
     remedies_df := sample_remedies;
     otc_df := sample_otc;
     get_geolocation := sample_geolocation |}.

Definition unkeyed : collaborators :=
  {| predict := sample_predict;
     remedies_df := sample_otc;
     otc_df := sample_otc;
     get_geolocation := sample_geolocation |}.

(** ** Characters and texts *)

Ltac in_list := repeat first [apply list_elem_of_here | apply list_elem_of_further].

Section Texts.

Lemma isdigit_decimal ch : isdigit ch = true → decimal_digit ch.
Proof.
  unfold decimal_digit.
  destruct ch as [[] [] [] [] [] [] [] []]; intros H; try discriminate H; in_list.
Qed.

Lemma decimal_isdigit ch : decimal_digit ch → isdigit ch = true.
Proof.
  unfold decimal_digit. intros H.
  repeat (apply elem_of_cons in H as [->|H]; [done|]).
  by apply elem_of_nil in H.
Qed.

Lemma all_chars_digits s :
  all_chars isdigit s = true ↔ ∀ ch, ch ∈ list_ascii_of_string s → decimal_digit ch.
Proof.
  induction s as [|c s IH]; simpl.
  - split; [|done]. intros _ ch Hin. by apply elem_of_nil in Hin.
  - rewrite andb_true_iff, IH. split.
    + intros [Hc Hs] ch [->|Hin]%elem_of_cons; [by apply isdigit_decimal|auto].
    + intros H. split.
      * apply decimal_isdigit, H. by left.
      * intros ch Hin. apply H. by right.
Qed.

(** [re.fullmatch(r'\d+', s)] matches exactly the texts of digits only. *)
Lemma fullmatch_only_digits s : fullmatch_digits s = true ↔ only_digits s.
Proof.
  unfold only_digits. rewrite <-all_chars_digits.
  destruct s as [|c s].
  - split; [done|]. by intros [? _].
  - change (fullmatch_digits (String c s)) with (all_chars isdigit (String c s)).
    split; [by intros H|by intros [_ H]].
Qed.

Lemma isspace_lower_char c : isspace (lower_char c) = isspace c.
Proof. by destruct c as [[] [] [] [] [] [] [] []]. Qed.

Lemma lstrip_lower s : lstrip (lower s) = lower (lstrip s).
Proof.
  induction s as [|c s IH]; [done|]; simpl.
  rewrite isspace_lower_char. by destruct (isspace c).
Qed.

Lemma rstrip_lower s : rstrip (lower s) = lower (rstrip s).
Proof.
  induction s as [|c s IH]; [done|]; simpl.
  rewrite IH, isspace_lower_char.
  destruct (rstrip s); simpl; [by destruct (isspace c)|done].
Qed.

(** Lowercasing and stripping commute. *)
Lemma strip_lower s : strip (lower s) = lower (strip s).
Proof. unfold strip. by rewrite rstrip_lower, lstrip_lower. Qed.

Lemma lower_char_idem c : lower_char (lower_char c) = lower_char c.
Proof. by destruct c as [[] [] [] [] [] [] [] []]. Qed.

Lemma lower_idem s : lower (lower s) = lower s.
Proof. induction s as [|c s IH]; [done|]. simpl. by rewrite lower_char_idem, IH. Qed.

Lemma lstrip_idem s : lstrip (lstrip s) = lstrip s.
Proof.
  induction s as [|c s IH]; [done|]. simpl.
  destruct (isspace c) eqn:E; [done|]. simpl. by rewrite E.
Qed.

Lemma lstrip_head s c t : lstrip s = String c t → isspace c = false.
Proof.
  induction s as [|a s IH]; [done|]. simpl.
  destruct (isspace a) eqn:E; [done|]. by intros [= <- _].
Qed.

Lemma lstrip_split s : ∃ p, s = p +:+ lstrip s.
Proof.
  induction s as [|a s [p IH]]; [by exists ""|]. simpl.
  destruct (isspace a); [|by exists ""].
  exists (String a p). simpl. by rewrite IH at 1.
Qed.

Lemma rstrip_idem s : rstrip (rstrip s) = rstrip s.
Proof.
  induction s as [|a s IH]; [done|]. simpl.
  destruct (rstrip s) as [|b r] eqn:E.
  - destruct (isspace a) eqn:Ea; [done|]. simpl. by rewrite Ea.
  - change (rstrip (String a (String b r))) with
      (match rstrip (String b r) with
       | EmptyString => if isspace a then EmptyString else String a EmptyString
       | r' => String a r'
       end).
    by rewrite IH.
Qed.

Lemma rstrip_fixed_tail a s : rstrip (String a s) = String a s → rstrip s = s.
Proof.
  simpl. destruct (rstrip s) as [|b r] eqn:E.
  - destruct (isspace a); [done|]. by intros [= <-].
  - by intros [= <-].
Qed.

Lemma rstrip_fixed_last s t c :
  rstrip s = s → s = t +:+ String c "" → isspace c = false.
Proof.
  revert t. induction s as [|a s IH]; intros t Hfix Hs.
  - by destruct t.
  - pose proof (rstrip_fixed_tail _ _ Hfix) as Hs'.
    destruct t as [|b t]; simpl in Hs.
    + injection Hs as -> ->. simpl in Hfix.
      by destruct (isspace c).
    + injection Hs as -> Hs. by apply (IH t).
Qed.

Lemma rstrip_lstrip_fixed s : rstrip s = s → rstrip (lstrip s) = lstrip s.
Proof.
  induction s as [|a s IH]; [done|]. intros Hfix.
  pose proof (rstrip_fixed_tail _ _ Hfix) as Hs'.
  cbn [lstrip]. destruct (isspace a); [by apply IH|done].
Qed.

Lemma strip_idem s : strip (strip s) = strip s.
Proof.
  unfold strip.
  rewrite (rstrip_lstrip_fixed (rstrip s)) by apply rstrip_idem.
  apply lstrip_idem.
Qed.

(** A stripped text neither starts nor ends with whitespace. *)
Lemma strip_trimmed s :
  (∀ c t, strip s = String c t → isspace c = false)
  ∧ (∀ t c, strip s = t +:+ String c "" → isspace c = false).
Proof.
  split.
  - intros c t. apply lstrip_head.
  - intros t c Hs. unfold strip in Hs.
    destruct (lstrip_split (rstrip s)) as [p Hp].
    apply (rstrip_fixed_last (rstrip s) (p +:+ t)); [apply rstrip_idem|].
    rewrite Hp at 1. rewrite Hs. clear.
    induction p as [|a p IH]; [done|].
    change (String a (p +:+ t +:+ String c "") = String a ((p +:+ t) +:+ String c "")).
    by rewrite IH.
Qed.

Lemma normalise_idem s : strip (lower (strip (lower s))) = strip (lower s).
Proof. by rewrite (strip_lower (strip (lower s))), strip_idem, <-strip_lower, lower_idem. Qed.

End Texts.

(** ** The lookups: properties *)

Section Lookups.

Implicit Types (df : DataFrame) (names : list (option string)).

Lemma getitem_str_key df key names :
  key_column df key names → getitem_str df key = Ok names.
Proof. unfold key_column, getitem_str. by intros ->. Qed.

Lemma eq_mask_lookup names x i b :
  eq_mask names x !! i = Some b →
  b = true ↔ row_matches names x i.
Proof.
  unfold eq_mask, row_matches. rewrite list_lookup_fmap.
  destruct (names !! i) as [[s|]|] eqn:E; simpl; intros [= <-].
  - rewrite bool_decide_eq_true. split.
    + intros H. by exists s.
    + by intros (s' & [= <-] & H).
  - split; [done|]. by intros (s' & [=] & _).
Qed.

Lemma first_selected_Some names x i :
  first_selected (eq_mask names x) = Some i →
  row_matches names x i ∧ ∀ j, j < i → ¬ row_matches names x j.
Proof.
  unfold first_selected. intros ([i' b] & Hf & ->)%fmap_Some. simpl.
  apply list_find_Some in Hf as (Hi & Hb & Hmin). split.
  - by eapply eq_mask_lookup.
  - intros j Hj Hm.
    destruct (eq_mask names x !! j) as [b'|] eqn:E.
    + apply (Hmin j b' E Hj). by eapply eq_mask_lookup.
    + apply lookup_ge_None in E. apply lookup_lt_Some in Hi. lia.
Qed.

Lemma first_selected_None names x :
  first_selected (eq_mask names x) = None → ∀ j, ¬ row_matches names x j.
Proof.
  unfold first_selected. rewrite fmap_None, list_find_None, Forall_forall.
  intros Hall j Hm.
  assert (is_Some (eq_mask names x !! j)) as [b Hb].
  { destruct Hm as (s & Hs & _). unfold eq_mask. rewrite list_lookup_fmap, Hs. eauto. }
  apply (Hall b); [by eapply list_elem_of_lookup_2|].
  by eapply eq_mask_lookup.
Qed.

Lemma omap_seq_lookup {A B} (g : A → option B) (l : list A) n lo :
  omap (λ k, l !! k ≫= g) (seq lo n) = omap g (take n (drop lo l)).
Proof.
  revert lo. induction n as [|n IH]; intros lo; [done|].
  destruct (l !! lo) as [x|] eqn:E.
  - rewrite (drop_S _ _ _ E). cbn [seq take]. csimpl. rewrite E, IH. done.
  - apply lookup_ge_None in E. rewrite drop_ge by done.
    rewrite take_nil. clear IH.
    assert (∀ m lo', (length l ≤ lo')%nat → omap (λ k, l !! k ≫= g) (seq lo' m) = []) as H.
    { induction m as [|m IHm]; intros lo' Hlo'; [done|].
      cbn [seq]. csimpl. rewrite (proj2 (lookup_ge_None l lo')) by done.
      simpl. apply IHm. lia. }
    by apply H.
Qed.

(** The cell the lookups read, through the column's Python values, is the
    cell of the table. *)
Lemma cell_values df i k :
  cell df i k = df !! k ≫= λ col, mjoin (values (data col) !! i).
Proof.
  unfold cell. destruct (df !! k) as [[key [cells|cells]]|]; simpl; [| |done];
    rewrite list_lookup_fmap; by destruct (cells !! i) as [[text|]|].
Qed.

Lemma iloc_row_cells df i lo n :
  dropna_tolist (iloc_row df i lo (lo + n)) = omap (cell df i) (seq lo n).
Proof.
  rewrite (list_omap_ext (cell df i)
             (λ k, df !! k ≫= λ col, mjoin (values (data col) !! i))
             (seq lo n) (seq lo n))
    by (apply Forall2_same_length_lookup_2; [done|];
        intros j x y Hx Hy; rewrite Hx in Hy; injection Hy as <-; apply cell_values).
  unfold dropna_tolist, iloc_row.
  replace (lo + n - lo) with n by lia.
  rewrite (omap_seq_lookup (λ col, mjoin (values (data col) !! i))).
  induction (take n (drop lo df)) as [|col l IH]; [done|].
  csimpl. rewrite IH. done.
Qed.

Lemma length_omap_le {A B} (g : A → option B) (l : list A) :
  (length (omap g l) ≤ length l)%nat.
Proof.
  induction l as [|x l IH]; [done|]. csimpl.
  destruct (g x); simpl; lia.
Qed.



(** C1.  The two lookups depend on the disease name only through its
    lowercased and stripped form: names that agree once lowercased and
    stripped of leading and trailing whitespace get the same answer from
    [get_remedies_for_disease] and from [get_otc_for_disease]. *)
Theorem lookups_ignore_case_and_whitespace (d1 d2 : string) (remedies otc : DataFrame) :
  strip (lower d1) = strip (lower d2) →
  get_remedies_for_disease d1 remedies = get_remedies_for_disease d2 remedies
  ∧ get_otc_for_disease d1 otc = get_otc_for_disease d2 otc.
Proof.
  intros H. unfold get_remedies_for_disease, get_otc_for_disease.
  by rewrite H.
Qed.


(** C3.  A disease name that matches no row of the table (after
    lowercasing and stripping) gets the empty list, not an exception,
    from [get_remedies_for_disease] and from [get_otc_for_disease]. *)
Theorem lookup_miss_returns_empty (disease : string) (remedies otc : DataFrame) :
  (∀ names, key_column remedies "DISEASE NAME" names →
     (∀ j, ¬ row_matches names (strip (lower disease)) j) →
     get_remedies_for_disease disease remedies = Ok [])
  ∧ (∀ names, key_column otc "Diseases" names →
     (∀ j, ¬ row_matches names (strip (lower disease)) j) →
     get_otc_for_disease disease otc = Ok []).
Proof.
  split; intros names Hkey Hnone.
  - unfold get_remedies_for_disease. rewrite (getitem_str_key _ _ _ Hkey).
    destruct (first_selected _) as [i|] eqn:E; [|done].
    apply first_selected_Some in E as [Hm _]. by destruct (Hnone i).
  - unfold get_otc_for_disease. rewrite (getitem_str_key _ _ _ Hkey).
    destruct (first_selected _) as [i|] eqn:E; [|done].
    apply first_selected_Some in E as [Hm _]. by destruct (Hnone i).
Qed.


Lemma getitem_str_raises df key e :
  getitem_str df key = Raise e → e = KeyError ∨ e = AttributeError.
Proof.
  unfold getitem_str. destruct (filter _ df) as [|col [|col' l]].
  - intros [= <-]. by left.
  - destruct (data col); [done|]. intros [= <-]. by right.
  - intros [= <-]. by right.
Qed.

(** The lookups raise nothing but KeyError (no key column) and
    AttributeError (a key column that is not one text column). *)
Lemma lookups_raise disease remedies otc e :
  get_remedies_for_disease disease remedies = Raise e
  ∨ get_otc_for_disease disease otc = Raise e →
  e = KeyError ∨ e = AttributeError.
Proof.
  unfold get_remedies_for_disease, get_otc_for_disease.
  intros [H|H].
  - destruct (getitem_str remedies _) as [names|e'] eqn:E;
      [by destruct (first_selected _)|].
    injection H as ->. by eapply getitem_str_raises.
  - destruct (getitem_str otc _) as [names|e'] eqn:E;
      [by destruct (first_selected _)|].
    injection H as ->. by eapply getitem_str_raises.
Qed.

End Lookups.

Lemma lookups_ignore_case_and_whitespace_witness :
  (get_remedies_for_disease "Fever" sample_remedies
   = get_remedies_for_disease " fever " sample_remedies
   ∧ get_otc_for_disease "Fever" sample_otc
     = get_otc_for_disease " fever " sample_otc)
  ∧ (get_remedies_for_disease " fever " sample_remedies
     = get_remedies_for_disease "FEVER" sample_remedies
     ∧ get_otc_for_disease " fever " sample_otc
       = get_otc_for_disease "FEVER" sample_otc).
Proof.
  split.
  - apply (lookups_ignore_case_and_whitespace "Fever" " fever "). reflexivity.
  - apply (lookups_ignore_case_and_whitespace " fever " "FEVER"). reflexivity.
Defined.




Lemma lookup_miss_returns_empty_witness :
  get_remedies_for_disease "Cholera" sample_remedies = Ok []
  ∧ get_otc_for_disease "Cholera" sample_otc = Ok [].
Proof.
  split.
  - apply (proj1 (lookup_miss_returns_empty "Cholera" sample_remedies sample_otc)
             [Some "Migraine"; Some " Fever "; Some "fever"]).
    + reflexivity.
    + intros [|[|[|j]]] (s & Hs & Heq); simpl in Hs;
        [injection Hs as <-; discriminate Heq..|discriminate Hs].
  - apply (proj2 (lookup_miss_returns_empty "Cholera" sample_remedies sample_otc)
             [Some "Fever"; None; Some "MIGRAINE "]).
    + reflexivity.
    + intros [|[|[|j]]] (s & Hs & Heq); simpl in Hs;
        [injection Hs as <-; discriminate Heq|discriminate Hs
        |injection Hs as <-; discriminate Heq|discriminate Hs].
Defined.

Example migraine_remedies :
  get_remedies_for_disease "Migraine" sample_remedies
  = Ok [Str "rest"; Str "dark room"; Str "ginger tea"].
Proof. reflexivity. Qed.

Example lookup_without_key_column :
  get_remedies_for_disease "Fever" sample_otc = Raise KeyError.
Proof. reflexivity. Qed.

(** ** The lookups: further properties *)

Section MoreLookups.

Implicit Types (df : DataFrame) (names : list (option string)).

Lemma filter_none (df : list Series) key :
  (∀ col, col ∈ df → name col ≠ key) → filter (λ col, name col = key) df = [].
Proof.
  induction df as [|col df IH]; [done|]. intros H.
  rewrite filter_cons_False by (apply H; by left).
  apply IH. intros col' Hin. apply H. by right.
Qed.

Lemma omap_nil {A B} (g : A → option B) (l : list A) :
  omap g l = [] ↔ ∀ x, x ∈ l → g x = None.
Proof.
  induction l as [|x l IH]; csimpl.
  - split; [|done]. intros _ y Hy. by apply elem_of_nil in Hy.
  - destruct (g x) as [b|] eqn:E.
    + split; [done|]. intros H. specialize (H x (list_elem_of_here _ _)). congruence.
    + rewrite IH. split.
      * intros H y [->|Hy]%elem_of_cons; auto.
      * intros H y Hy. apply H. by right.
Qed.

Lemma first_match_unique names x i j :
  first_match names x i → first_match names x j → i = j.
Proof.
  intros [Hi Hmi] [Hj Hmj].
  destruct (lt_eq_lt_dec i j) as [[Hlt| ->]|Hlt]; [|done|].
  - by destruct (Hmj i Hlt).
  - by destruct (Hmi j Hlt).
Qed.

Lemma row_values_empty df i n :
  row_values df i n = [] ↔ ∀ k, (1 ≤ k ≤ n)%nat → cell df i k = None.
Proof.
  unfold row_values. rewrite omap_nil. split.
  - intros H k Hk. apply H, elem_of_seq. lia.
  - intros H k Hk%elem_of_seq. apply H. lia.
Qed.

Lemma lookup_empty_iff df names x i n :
  first_selected (eq_mask names x) = Some i →
  row_values df i n = [] ↔
  (∀ j, ¬ row_matches names x j)
  ∨ (∃ i', first_match names x i' ∧ ∀ k, (1 ≤ k ≤ n)%nat → cell df i' k = None).
Proof.
  intros Hsel%first_selected_Some. rewrite row_values_empty. split.
  - intros H. right. by exists i.
  - intros [Hnone|(i' & Hi' & H)].
    + by destruct (Hnone i), Hsel.
    + by rewrite (first_match_unique _ _ _ _ Hsel Hi').
Qed.

Lemma eq_mask_normalised names names' x :
  Forall2 (λ a b, (λ s, strip (lower s)) <$> a = (λ s, strip (lower s)) <$> b)
          names names' →
  eq_mask names x = eq_mask names' x.
Proof.
  unfold eq_mask. induction 1 as [|a b l l' Hab _ IH]; [done|].
  csimpl. rewrite IH. f_equal.
  destruct a as [s|], b as [s'|]; simplify_eq/=; [|done]. by rewrite Hab.
Qed.

(** X1.  Without a column labelled with the key name the lookups raise
    KeyError, and with a key column that is not a text column they raise
    AttributeError, whatever the disease name. *)
Theorem lookup_needs_a_text_key_column (disease : string) (df : DataFrame) :
  ((∀ col, col ∈ df → name col ≠ "DISEASE NAME") →
     get_remedies_for_disease disease df = Raise KeyError)
  ∧ ((∀ col, col ∈ df → name col ≠ "Diseases") →
     get_otc_for_disease disease df = Raise KeyError)
  ∧ (∀ cells,
       filter (λ col, name col = "DISEASE NAME") df
       = [ {| name := "DISEASE NAME"; data := NumCol cells |} ] →
       get_remedies_for_disease disease df = Raise AttributeError)
  ∧ (∀ cells,
       filter (λ col, name col = "Diseases") df
       = [ {| name := "Diseases"; data := NumCol cells |} ] →
       get_otc_for_disease disease df = Raise AttributeError).
Proof.
  unfold get_remedies_for_disease, get_otc_for_disease, getitem_str, DataFrame.
  split_and!.
  - intros H. by rewrite (filter_none _ _ H).
  - intros H. by rewrite (filter_none _ _ H).
  - by intros cells ->.
  - by intros cells ->.
Qed.

(** X2.  Whatever the table and the disease name, a list returned by
    [get_remedies_for_disease] has at most 6 elements and one returned by
    [get_otc_for_disease] at most 4. *)
Theorem lookups_are_bounded (disease : string) (df : DataFrame) (l : list obj) :
  (get_remedies_for_disease disease df = Ok l → (length l ≤ 6)%nat)
  ∧ (get_otc_for_disease disease df = Ok l → (length l ≤ 4)%nat).
Proof.
  unfold get_remedies_for_disease, get_otc_for_disease, dropna_tolist, iloc_row.
  split; intros H; destruct (getitem_str df _); [|done| |done];
    destruct (first_selected _); simplify_eq/=; try lia.
  - etrans; [apply length_omap_le|]. rewrite length_fmap, length_take. lia.
  - etrans; [apply length_omap_le|]. rewrite length_fmap, length_take. lia.
Qed.

(** X3.  For a table with its key column, the lookup returns the empty
    list exactly when no row matches the disease name or the first
    matching row has nothing but nulls in its value columns: the two
    cases cannot be told apart by the caller. *)
Theorem empty_result_has_two_causes (disease : string) (remedies otc : DataFrame) :
  (∀ names, key_column remedies "DISEASE NAME" names →
     get_remedies_for_disease disease remedies = Ok [] ↔
     (∀ j, ¬ row_matches names (strip (lower disease)) j)
     ∨ (∃ i, first_match names (strip (lower disease)) i
             ∧ ∀ k, (1 ≤ k ≤ 6)%nat → cell remedies i k = None))
  ∧ (∀ names, key_column otc "Diseases" names →
     get_otc_for_disease disease otc = Ok [] ↔
     (∀ j, ¬ row_matches names (strip (lower disease)) j)
     ∨ (∃ i, first_match names (strip (lower disease)) i
             ∧ ∀ k, (1 ≤ k ≤ 4)%nat → cell otc i k = None)).
Proof.
  split; intros names Hkey.
  - unfold get_remedies_for_disease. rewrite (getitem_str_key _ _ _ Hkey).
    destruct (first_selected _) as [i|] eqn:E.
    + change 7 with (1 + 6). rewrite iloc_row_cells.
      fold (row_values remedies i 6).
      etrans; [|by apply (lookup_empty_iff remedies names)].
      split; [by intros [= ->]|by intros ->].
    + split; [|done]. intros _. left. by apply first_selected_None.
  - unfold get_otc_for_disease. rewrite (getitem_str_key _ _ _ Hkey).
    destruct (first_selected _) as [i|] eqn:E.
    + change 5 with (1 + 4). rewrite iloc_row_cells.
      fold (row_values otc i 4).
      etrans; [|by apply (lookup_empty_iff otc names)].
      split; [by intros [= ->]|by intros ->].
    + split; [|done]. intros _. left. by apply first_selected_None.
Qed.

(** X4.  The case and the surrounding whitespace of the names in the key
    column do not matter either: two tables that differ only in their
    first column, the key column, with names that agree row by row once
    lowercased and stripped, give the same answers. *)
Theorem key_column_case_and_whitespace_do_not_matter
    (disease : string) (names names' : list (option string)) (rest : DataFrame) :
  Forall2 (λ a b, (λ s, strip (lower s)) <$> a = (λ s, strip (lower s)) <$> b)
          names names' →
  get_remedies_for_disease disease
    ({| name := "DISEASE NAME"; data := TextCol names |} :: rest)
  = get_remedies_for_disease disease
      ({| name := "DISEASE NAME"; data := TextCol names' |} :: rest)
  ∧ get_otc_for_disease disease
      ({| name := "Diseases"; data := TextCol names |} :: rest)
    = get_otc_for_disease disease
        ({| name := "Diseases"; data := TextCol names' |} :: rest).
Proof.
  intros H%(eq_mask_normalised _ _ (strip (lower disease))).
  unfold get_remedies_for_disease, get_otc_for_disease, getitem_str, iloc_row, DataFrame.
  rewrite !filter_cons_True by done. simpl.
  split.
  - match goal with
    | |- context [match ?l with [] => Ok names | _ :: _ => _ end] => destruct l
    end; simpl; [|done]. by rewrite H.
  - match goal with
    | |- context [match ?l with [] => Ok names | _ :: _ => _ end] => destruct l
    end; simpl; [|done]. by rewrite H.
Qed.

(** X5.  Looking up a name that is already lowercased and stripped gives
    the same answer as looking up the name itself. *)
Theorem lookup_of_normalised_name (disease : string) (remedies otc : DataFrame) :
  get_remedies_for_disease (strip (lower disease)) remedies
  = get_remedies_for_disease disease remedies
  ∧ get_otc_for_disease (strip (lower disease)) otc
    = get_otc_for_disease disease otc.
Proof.
  unfold get_remedies_for_disease, get_otc_for_disease.
  by rewrite normalise_idem.
Qed.

End MoreLookups.

Lemma lookup_needs_a_text_key_column_witness :
  get_remedies_for_disease "Fever" sample_otc = Raise KeyError
  ∧ get_otc_for_disease "Fever" sample_remedies = Raise KeyError
  ∧ get_remedies_for_disease "Fever" numbered_remedies = Raise AttributeError.
Proof.
  split_and!.
  - apply (proj1 (lookup_needs_a_text_key_column "Fever" sample_otc)).
    intros col Hin. repeat (apply elem_of_cons in Hin as [->|Hin]; [discriminate|]).
    by apply elem_of_nil in Hin.
  - apply (proj1 (proj2 (lookup_needs_a_text_key_column "Fever" sample_remedies))).
    intros col Hin. repeat (apply elem_of_cons in Hin as [->|Hin]; [discriminate|]).
    by apply elem_of_nil in Hin.
  - apply (proj1 (proj2 (proj2 (lookup_needs_a_text_key_column "Fever" numbered_remedies)))
             [Some "1"; Some "2"]).
    reflexivity.
Defined.

Lemma lookups_are_bounded_witness :
  (length [Str "fluids"; Str "sponge bath"] ≤ 6)%nat
  ∧ (length [Str "ibuprofen"; Str "aspirin"] ≤ 4)%nat.
Proof.
  split.
  - apply (proj1 (lookups_are_bounded " FEVER" sample_remedies
                    [Str "fluids"; Str "sponge bath"])). reflexivity.
  - apply (proj2 (lookups_are_bounded "migraine" sample_otc
                    [Str "ibuprofen"; Str "aspirin"])). reflexivity.
Defined.

Lemma empty_result_has_two_causes_witness :
  get_remedies_for_disease "migraine" bare_remedies = Ok [].
Proof.
  apply (proj1 (empty_result_has_two_causes "migraine" bare_remedies sample_otc)
           [Some "Migraine"; Some "Fever"]).
  - reflexivity.
  - right. exists 0. split; [split|].
    + exists "Migraine". split; reflexivity.
    + intros j Hj. lia.
    + intros [|[|k]] Hk; [lia|reflexivity|]. unfold cell. simpl.
      destruct k; reflexivity.
Defined.

Lemma key_column_case_and_whitespace_do_not_matter_witness :
  get_remedies_for_disease "fever"
    ({| name := "DISEASE NAME"; data := TextCol [Some "Migraine"; None; Some " Fever "] |}
     :: drop 1 sample_remedies)
  = get_remedies_for_disease "fever"
      ({| name := "DISEASE NAME"; data := TextCol [Some " MIGRAINE"; None; Some "fever"] |}
       :: drop 1 sample_remedies).
Proof.
  apply (key_column_case_and_whitespace_do_not_matter "fever"
           [Some "Migraine"; None; Some " Fever "] [Some " MIGRAINE"; None; Some "fever"]).
  repeat constructor.
Defined.

(** ** The conversation: properties *)

Section ConversationFacts.

Context (c : collaborators).

Lemma bind_Done {A B} (m : M A) (k : A → M B) w a w' :
  m w = Done a w' → (m ≫= k) w = k a w'.
Proof. unfold mbind, M_bind. by intros ->. Qed.

Lemma safe_input_line prompt default line rest history :
  safe_input prompt default {| stdin := line :: rest; log := history |}
  = Done (strip line) {| stdin := rest; log := history ++ [Prompt prompt] |}.
Proof. done. Qed.

Lemma safe_input_eof prompt default history :
  safe_input prompt default {| stdin := []; log := history |}
  = Done default {| stdin := []; log := history ++ [Prompt prompt] |}.
Proof. done. Qed.

Lemma safe_input_Done prompt default w :
  ∃ answer, safe_input prompt default w
    = Done answer {| stdin := tail (stdin w); log := log w ++ [Prompt prompt] |}.
Proof. destruct w as [[|line rest] history]; eauto. Qed.

(** *** Computations that add only quiet events *)

Lemma quiet_ret {A} (a : A) : quiet_step (mret a).
Proof. intros w. exists []. by rewrite app_nil_r. Qed.

Lemma quiet_emit e : quiet e → quiet_step (emit e).
Proof. intros He w. exists [e]. split; [done|]. by constructor. Qed.

Lemma quiet_print text : quiet_step (print text).
Proof. by apply quiet_emit. Qed.

Lemma quiet_raise {A} e : quiet_step (raise (A:=A) e).
Proof. intros w. exists []. by rewrite app_nil_r. Qed.

Lemma quiet_lift {A} (r : result A) : quiet_step (lift r).
Proof. destruct r; [apply quiet_ret|apply quiet_raise]. Qed.

Lemma quiet_bind {A B} (m : M A) (k : A → M B) :
  quiet_step m → (∀ a, quiet_step (k a)) → quiet_step (m ≫= k).
Proof.
  intros Hm Hk w. destruct (Hm w) as (evs & Hlog & Hq).
  unfold mbind, M_bind. destruct (m w) as [a w'|e w'|w']; simpl in *; eauto.
  destruct (Hk a w') as (evs' & Hlog' & Hq').
  exists (evs ++ evs'). rewrite Hlog', Hlog, (assoc_L (++)).
  split; [done|]. by apply Forall_app.
Qed.

Lemma quiet_safe_input prompt default : quiet_step (safe_input prompt default).
Proof.
  intros w. destruct (safe_input_Done prompt default w) as [answer ->].
  exists [Prompt prompt]. split; [done|]. by constructor.
Qed.

Create HintDb quiet.
Hint Resolve quiet_ret quiet_print quiet_raise quiet_lift quiet_safe_input : quiet.
Hint Extern 1 (quiet_step (emit _)) => apply quiet_emit; exact I : quiet.
Hint Extern 2 (quiet_step (_ ≫= _)) => apply quiet_bind; [|intros ?] : quiet.
Hint Extern 3 (quiet_step (match ?x with _ => _ end)) => destruct x : quiet.

Lemma quiet_print_items l : quiet_step (print_items l).
Proof. induction l; simpl; eauto with quiet. Qed.
Hint Resolve quiet_print_items : quiet.

Lemma print_items_log l w :
  print_items l w
  = Done () {| stdin := stdin w;
               log := log w ++ ((λ x, Print ("- " +:+ str x)) <$> l) |}.
Proof.
  revert w. induction l as [|x l IH]; intros w; simpl.
  - destruct w. by rewrite app_nil_r.
  - unfold mbind, M_bind, print, emit. rewrite IH. simpl.
    by rewrite <-(assoc_L (++)).
Qed.

Lemma quiet_classify user_input : quiet_step (classify c user_input).
Proof. unfold classify. eauto 10 with quiet. Qed.
Hint Resolve quiet_classify : quiet.

Lemma quiet_symptom_iteration : quiet_step (symptom_iteration c).
Proof. unfold symptom_iteration. eauto with quiet. Qed.
Hint Resolve quiet_symptom_iteration : quiet.

Lemma quiet_symptom_loop fuel : quiet_step (symptom_loop c fuel).
Proof.
  induction fuel as [|fuel IH]; simpl.
  - intros w. exists []. by rewrite app_nil_r.
  - eauto with quiet.
Qed.
Hint Resolve quiet_symptom_loop : quiet.

Lemma quiet_show_remedies disease : quiet_step (show_remedies c disease).
Proof. unfold show_remedies. eauto 10 with quiet. Qed.

Lemma quiet_otc_reply disease choice : quiet_step (otc_reply c disease choice).
Proof. unfold otc_reply. eauto 10 with quiet. Qed.
Hint Resolve quiet_show_remedies quiet_otc_reply : quiet.

Lemma quiet_otc_step disease : quiet_step (otc_step c disease).
Proof. unfold otc_step. eauto with quiet. Qed.
Hint Resolve quiet_otc_step : quiet.

(** *** Where the two location calls can occur *)

Lemma locate_outcome location w :
  locate c location w
  = let '(lat, lng) := get_geolocation c location in
    Done () {| stdin := stdin w;
               log := log w ++ [Geolocation location lat lng;
                                if truthy lat && truthy lng
                                then NearbyServices lat lng else Print sorry] |}.
Proof.
  unfold locate. destruct (get_geolocation c location) as [lat lng].
  unfold mbind, M_bind, emit, print, emit; simpl.
  destruct (truthy lat && truthy lng); simpl; by rewrite <-(assoc_L (++)).
Qed.

Lemma location_step_locate w :
  ∃ location,
    location_step c w
    = locate c location {| stdin := tail (stdin w);
                           log := log w ++ [Prompt location_prompt] |}.
Proof.
  destruct (safe_input_Done location_prompt "New York" w) as [location H].
  exists location. unfold location_step. by rewrite (bind_Done _ _ _ _ _ H).
Qed.

Lemma ends_location_step : ends_with_locate c (location_step c).
Proof.
  intros w. left. destruct (location_step_locate w) as [location H].
  eexists location, _, [Prompt location_prompt].
  split; [exact H|]. split; [done|]. by constructor.
Qed.

Lemma ends_quiet (m : M unit) : quiet_step m → ends_with_locate c m.
Proof. intros Hm w. right. apply Hm. Qed.

Lemma ends_bind {A} (m : M A) (k : A → M unit) :
  quiet_step m → (∀ a, ends_with_locate c (k a)) → ends_with_locate c (m ≫= k).
Proof.
  intros Hm Hk w. destruct (Hm w) as (evs & Hlog & Hq).
  unfold mbind, M_bind. destruct (m w) as [a w'|e w'|w']; simpl in *;
    [|right; eauto..].
  destruct (Hk a w') as [(location & w'' & evs' & Hrun & Hlog' & Hq')
                        |(evs' & Hlog' & Hq')].
  - left. exists location, w'', (evs ++ evs').
    rewrite Hlog', Hlog, (assoc_L (++)). split_and!; [done..|]. by apply Forall_app.
  - right. exists (evs ++ evs').
    rewrite Hlog', Hlog, (assoc_L (++)). split; [done|]. by apply Forall_app.
Qed.

Lemma ends_after_loop detected : ends_with_locate c (after_loop c detected).
Proof.
  destruct detected as [|disease ?]; simpl.
  - apply ends_quiet, quiet_raise.
  - apply ends_bind; [auto with quiet|]. intros _.
    apply ends_bind; [auto with quiet|]. intros _.
    apply ends_location_step.
Qed.

Lemma ends_process fuel : ends_with_locate c (process_user_input c fuel).
Proof.
  unfold process_user_input.
  apply ends_bind; [auto with quiet|]. intros _.
  apply ends_bind; [auto with quiet|]. apply ends_after_loop.
Qed.

(** A run that has asked for a location has asked once, as its last step
    but one, and the step after it is decided by the truth values of the
    two coordinates. *)
Lemma located_run fuel lines location lat lng :
  let run := process_user_input c fuel (start lines) in
  Geolocation location lat lng ∈ log (final run) →
  ∃ evs w,
    Forall quiet evs
    ∧ run = Done () w
    ∧ log w = evs ++ [Geolocation location lat lng;
                      if truthy lat && truthy lng
                      then NearbyServices lat lng else Print sorry].
Proof.
  intros run Hin. subst run.
  destruct (ends_process fuel (start lines))
    as [(location' & w' & evs & Hrun & Hlog & Hq)|(evs & Hlog & Hq)]; simpl in *.
  - rewrite Hrun, locate_outcome in Hin |- *.
    destruct (get_geolocation c location') as [lat' lng']; simpl in *.
    rewrite Hlog in Hin |- *.
    apply elem_of_app in Hin as [Hin|Hin].
    { rewrite Forall_forall in Hq. by destruct (Hq _ Hin). }
    apply elem_of_cons in Hin as [Hin|Hin].
    + injection Hin as -> -> ->. eauto.
    + apply list_elem_of_singleton in Hin.
      by destruct (truthy lat' && truthy lng').
  - rewrite Hlog in Hin. rewrite Forall_forall in Hq. by destruct (Hq _ Hin).
Qed.

Lemma quiet_not_nearby evs lat lng : Forall quiet evs → NearbyServices lat lng ∉ evs.
Proof. rewrite Forall_forall. intros Hq Hin. by destruct (Hq _ Hin). Qed.

(** *** End of input never surfaces *)

Lemma eof_ret {A} (a : A) : never_eof (mret a).
Proof. done. Qed.

Lemma eof_emit e : never_eof (emit e).
Proof. done. Qed.

Lemma eof_lift {A} (r : result A) : r ≠ Raise EOFError → never_eof (lift r).
Proof. destruct r as [a|e]; [done|]. intros He w w' [= -> _]. by destruct He. Qed.

Lemma eof_remedies disease df :
  never_eof (lift (get_remedies_for_disease disease df)).
Proof.
  apply eof_lift. intros H.
  by destruct (lookups_raise disease df df EOFError); [by left| |].
Qed.

Lemma eof_otc disease df :
  never_eof (lift (get_otc_for_disease disease df)).
Proof.
  apply eof_lift. intros H.
  by destruct (lookups_raise disease df df EOFError); [by right| |].
Qed.

Lemma eof_bind {A B} (m : M A) (k : A → M B) :
  never_eof m → (∀ a, never_eof (k a)) → never_eof (m ≫= k).
Proof.
  intros Hm Hk w w'. unfold mbind, M_bind.
  destruct (m w) as [a w1|e w1|w1] eqn:E; [apply Hk| |done].
  intros [= -> ->]. by destruct (Hm w w').
Qed.

Lemma eof_safe_input prompt default : never_eof (safe_input prompt default).
Proof. intros w w'. by destruct (safe_input_Done prompt default w) as [answer ->]. Qed.

Create HintDb eof.
Hint Resolve eof_ret eof_emit eof_remedies eof_otc eof_safe_input : eof.
Hint Extern 1 (never_eof (print _)) => apply eof_emit : eof.
Hint Extern 1 (never_eof (raise IndexError)) => by intros ?? : eof.
Hint Extern 2 (never_eof (_ ≫= _)) => apply eof_bind; [|intros ?] : eof.
Hint Extern 3 (never_eof (match ?x with _ => _ end)) => destruct x : eof.

Lemma eof_print_items l : never_eof (print_items l).
Proof. induction l; simpl; eauto with eof. Qed.
Hint Resolve eof_print_items : eof.

Lemma eof_symptom_loop fuel : never_eof (symptom_loop c fuel).
Proof.
  induction fuel as [|fuel IH]; simpl; [done|].
  unfold symptom_iteration, classify. eauto 12 with eof.
Qed.

Lemma eof_show_remedies disease : never_eof (show_remedies c disease).
Proof. unfold show_remedies. eauto 10 with eof. Qed.

Lemma eof_otc_step disease : never_eof (otc_step c disease).
Proof. unfold otc_step, otc_reply. eauto 10 with eof. Qed.

Lemma eof_location_step : never_eof (location_step c).
Proof.
  unfold location_step. apply eof_bind; [auto with eof|]. intros location w w'.
  rewrite locate_outcome. by destruct (get_geolocation c location).
Qed.
Hint Resolve eof_show_remedies eof_otc_step eof_location_step : eof.

Lemma eof_after_loop detected : never_eof (after_loop c detected).
Proof. destruct detected; simpl; eauto with eof. Qed.

Lemma eof_process fuel : never_eof (process_user_input c fuel).
Proof.
  unfold process_user_input.
  apply eof_bind; [apply eof_emit|]. intros _.
  apply eof_bind; [apply eof_symptom_loop|]. apply eof_after_loop.
Qed.

(** *** The symptom prompt *)

Lemma symptom_loop_prompts fuel w :
  ∃ evs, log (final (symptom_loop c (S fuel) w))
         = log w ++ Prompt symptom_prompt :: evs.
Proof.
  destruct (safe_input_Done symptom_prompt "fever" w) as [answer H].
  cbn [symptom_loop]. unfold symptom_iteration.
  assert (quiet_step (classify c answer ≫= λ r,
            match r with
            | Some detected_symptoms => mret detected_symptoms
            | None => symptom_loop c fuel
            end)) as Hq by eauto with quiet.
  destruct (Hq {| stdin := tail (stdin w); log := log w ++ [Prompt symptom_prompt] |})
    as (evs & Hlog & _).
  exists evs. unfold mbind, M_bind in *. rewrite H. simpl in *.
  by rewrite Hlog, <-(assoc_L (++)).
Qed.

(** C4.  A symptom line that, once stripped, consists of digits only is
    rejected: the pass through the loop prints the validation message and
    nothing else (no prediction, no lookup), the loop is back at its head
    with that line consumed, its next action is the symptom prompt again,
    and the conversation as a whole is still inside the loop. *)
Theorem digits_only_symptom_is_rejected (line : string) (rest : list string)
    (history : list event) (fuel : nat) :
  only_digits (strip line) →
  let w := {| stdin := line :: rest; log := history |} in
  let w' := {| stdin := rest;
               log := history ++ [Prompt symptom_prompt; Print invalid_symptoms] |} in
  symptom_iteration c w = Done None w'
  ∧ symptom_loop c (S fuel) w = symptom_loop c fuel w'
  ∧ (∃ evs, log (final (symptom_loop c (S fuel) w'))
            = log w' ++ Prompt symptom_prompt :: evs)
  ∧ process_user_input c (S fuel) (start (line :: rest))
    = (symptom_loop c fuel ≫= after_loop c)
        {| stdin := rest;
           log := [Print "Hello! I am your health assistant.";
                   Prompt symptom_prompt; Print invalid_symptoms] |}.
Proof.
  intros Hd%fullmatch_only_digits w w'.
  assert (symptom_iteration c w = Done None w') as Hit.
  { unfold symptom_iteration, w.
    rewrite (bind_Done _ _ _ _ _ (safe_input_line _ _ _ _ _)).
    unfold classify. rewrite Hd. unfold w', mbind, M_bind, print, emit; simpl.
    by rewrite <-(assoc_L (++)). }
  split_and!.
  - done.
  - cbn [symptom_loop]. by rewrite (bind_Done _ _ _ _ _ Hit).
  - apply symptom_loop_prompts.
  - unfold process_user_input, start.
    cbn [symptom_loop]. unfold symptom_iteration.
    unfold mbind at 1 2 3 4, M_bind at 1 2 3 4. simpl.
    unfold classify. rewrite Hd. done.
Qed.


(** C7.  At end of input every prompt yields its default and no error:
    [safe_input] returns the default it is given, the symptom prompt goes
    on with "fever", the OTC prompt with "no" (so nothing is looked up),
    the location prompt with "New York"; and no run of the conversation
    ends with EOFError. *)
Theorem end_of_input_yields_defaults (disease : string) (history : list event) :
  let w := {| stdin := []; log := history |} in
  let asked prompt := {| stdin := []; log := history ++ [Prompt prompt] |} in
  (∀ prompt default, safe_input prompt default w = Done default (asked prompt))
  ∧ symptom_iteration c w = classify c "fever" (asked symptom_prompt)
  ∧ otc_step c disease w
    = Done () {| stdin := [];
                 log := history ++ [Prompt otc_prompt;
                                    Print "No OTC medicines will be displayed."] |}
  ∧ location_step c w = locate c "New York" (asked location_prompt)
  ∧ (∀ fuel lines w', process_user_input c fuel (start lines) ≠ Raised EOFError w').
Proof.
  intros w asked. split_and!.
  - done.
  - done.
  - unfold otc_step, w.
    rewrite (bind_Done _ _ _ _ _ (safe_input_eof _ _ _)).
    unfold otc_reply, print, emit; simpl. by rewrite <-(assoc_L (++)).
  - done.
  - intros fuel lines w'. apply eof_process.
Qed.

(** C6.  When the geolocation collaborator returns (None, None), what
    follows is the apology and the end of the conversation, not a call to
    the nearby-services collaborator; in a run of the conversation where
    that happened, the nearby-services collaborator was not called at all
    and the apology is the last thing in the log. *)
Theorem no_coordinates_no_nearby_services (fuel : nat) (lines : list string)
    (location : string) :
  (get_geolocation c location = (CNone, CNone) →
   ∀ w, locate c location w
        = Done () {| stdin := stdin w;
                     log := log w ++ [Geolocation location CNone CNone;
                                      Print sorry] |})
  ∧ (let run := process_user_input c fuel (start lines) in
     Geolocation location CNone CNone ∈ log (final run) →
     (∀ lat lng, NearbyServices lat lng ∉ log (final run))
     ∧ ∃ evs w, run = Done () w
         ∧ log w = evs ++ [Geolocation location CNone CNone; Print sorry]).
Proof.
  split.
  { intros Hgeo w. by rewrite locate_outcome, Hgeo. }
  intros run Hin.
  destruct (located_run fuel lines location CNone CNone Hin)
    as (evs & w & Hq & Hrun & Hlog).
  fold run in Hrun. simpl in Hlog. split; [|eauto].
  intros lat lng. rewrite Hrun. simpl. rewrite Hlog.
  intros [Hn|Hn]%elem_of_app.
  - by apply (quiet_not_nearby evs lat lng).
  - repeat (apply elem_of_cons in Hn as [Hn|Hn]; [done|]). by apply elem_of_nil in Hn.
Qed.

(** C8.  The guard tests the truth value of both coordinates: None, the
    integer 0 and the floats 0.0 and -0.0 are all false, and in a run where
    the geolocation collaborator returned a pair with a false coordinate
    the nearby-services collaborator was not called; the run ends with the
    apology. *)
Theorem falsy_coordinate_no_nearby_services (fuel : nat) (lines : list string)
    (location : string) (lat lng : coord) :
  let run := process_user_input c fuel (start lines) in
  Geolocation location lat lng ∈ log (final run) →
  truthy lat = false ∨ truthy lng = false →
  ((∀ a b, NearbyServices a b ∉ log (final run))
   ∧ ∃ evs w, run = Done () w
       ∧ log w = evs ++ [Geolocation location lat lng; Print sorry])
  ∧ truthy CNone = false ∧ truthy (CInt 0) = false
  ∧ truthy (CFloat 0) = false ∧ truthy (CFloat (-0)) = false.
Proof.
  intros run Hin Hfalsy. split; [|done].
  destruct (located_run fuel lines location lat lng Hin)
    as (evs & w & Hq & Hrun & Hlog).
  fold run in Hrun.
  assert (truthy lat && truthy lng = false) as Hguard.
  { destruct Hfalsy as [-> | ->]; [done|]. by rewrite andb_false_r. }
  rewrite Hguard in Hlog. split; [|eauto].
  intros a b. rewrite Hrun. simpl. rewrite Hlog.
  intros [Hn|Hn]%elem_of_app.
  - by apply (quiet_not_nearby evs a b).
  - repeat (apply elem_of_cons in Hn as [Hn|Hn]; [done|]). by apply elem_of_nil in Hn.
Qed.

End ConversationFacts.

Lemma digits_only_symptom_is_rejected_witness :
  symptom_iteration sample {| stdin := [" 12345 "; "headache"]; log := [] |}
  = Done None {| stdin := ["headache"];
                 log := [Prompt symptom_prompt; Print invalid_symptoms] |}.
Proof.
  apply (digits_only_symptom_is_rejected sample " 12345 " ["headache"] [] 1).
  split; [discriminate|].
  intros ch Hin. change (strip " 12345 ") with "12345" in Hin. simpl in Hin.
  repeat (apply elem_of_cons in Hin as [->|Hin]; [in_list|]).
  by apply elem_of_nil in Hin.
Defined.


Lemma no_coordinates_no_nearby_services_witness :
  locate sample "Atlantis" (start [])
  = Done () {| stdin := [];
               log := [Geolocation "Atlantis" CNone CNone; Print sorry] |}
  ∧ (∀ lat lng, NearbyServices lat lng
       ∉ log (final (process_user_input sample 1 (start ["headache"; "no"; "Atlantis"]))))
  ∧ ∃ evs w,
      process_user_input sample 1 (start ["headache"; "no"; "Atlantis"]) = Done () w
      ∧ log w = evs ++ [Geolocation "Atlantis" CNone CNone; Print sorry].
Proof.
  split.
  - apply (proj1 (no_coordinates_no_nearby_services sample 0 [] "Atlantis")).
    reflexivity.
  - apply (proj2 (no_coordinates_no_nearby_services sample 1
                    ["headache"; "no"; "Atlantis"] "Atlantis")).
    vm_compute. in_list.
Defined.

Lemma falsy_coordinate_no_nearby_services_witness :
  (∀ a b, NearbyServices a b
     ∉ log (final (process_user_input sample 2 (start ["7"; "fever"; "no"; "Greenwich"]))))
  ∧ ∃ evs w,
      process_user_input sample 2 (start ["7"; "fever"; "no"; "Greenwich"]) = Done () w
      ∧ log w = evs ++ [Geolocation "Greenwich" (CFloat 51.5) (CFloat 0); Print sorry].
Proof.
  apply (falsy_coordinate_no_nearby_services sample 2 ["7"; "fever"; "no"; "Greenwich"]
           "Greenwich" (CFloat 51.5) (CFloat 0)).
  - vm_compute. in_list.
  - right. reflexivity.
Defined.

(** The end-to-end scenarios of the specification. *)

Example headache_scenario :
  process_user_input sample 2 (start ["12345"; "headache"; "YES"; "Paris"])
  = Done () {| stdin := [];
      log := [Print "Hello! I am your health assistant.";
              Prompt symptom_prompt; Print invalid_symptoms;
              Prompt symptom_prompt; Predict "headache";
              Print "I think you might have Migraine.";
              RemediesLookup "Migraine";
              Print "Here are some home remedies:";
              Print "- rest"; Print "- dark room"; Print "- ginger tea";
              Prompt otc_prompt; OtcLookup "Migraine";
              Print "Here are some OTC medicines you can try:";
              Print "- ibuprofen"; Print "- aspirin";
              Prompt location_prompt;
              Geolocation "Paris" (CFloat 48.5) (CFloat 2.25);
              NearbyServices (CFloat 48.5) (CFloat 2.25)] |}.
Proof. vm_compute. reflexivity. Qed.

Example end_of_input_scenario :
  process_user_input sample 1 (start [])
  = Done () {| stdin := [];
      log := [Print "Hello! I am your health assistant.";
              Prompt symptom_prompt; Predict "fever";
              Print "I think you might have Fever.";
              RemediesLookup "Fever";
              Print "Here are some home remedies:";
              Print "- fluids"; Print "- sponge bath";
              Prompt otc_prompt; Print "No OTC medicines will be displayed.";
              Prompt location_prompt;
              Geolocation "New York" CNone CNone; Print sorry] |}.
Proof. vm_compute. reflexivity. Qed.

Example digits_forever :
  process_user_input sample 2 (start ["1"; "2"; "3"])
  = Running {| stdin := ["3"];
      log := [Print "Hello! I am your health assistant.";
              Prompt symptom_prompt; Print invalid_symptoms;
              Prompt symptom_prompt; Print invalid_symptoms] |}.
Proof. vm_compute. reflexivity. Qed.

(** ** The conversation: further properties *)

Section MoreConversation.

Context (c : collaborators).

Lemma bind_Done_inv {A B} (m : M A) (k : A → M B) w b w' :
  (m ≫= k) w = Done b w' → ∃ a w1, m w = Done a w1 ∧ k a w1 = Done b w'.
Proof. unfold mbind, M_bind. destruct (m w) as [a w1| |]; [eauto|done..]. Qed.

Lemma detected_text_labels (l : list obj) :
  omap (λ symptom, match symptom with Str s => Some s | Other _ => None end) l
  = text_labels l.
Proof. induction l as [|[s|shown] l IH]; csimpl; by rewrite ?IH. Qed.

Lemma text_labels_nil l : text_labels l = [] ↔ ∀ s, Str s ∉ l.
Proof.
  induction l as [|[s|shown] l IH]; simpl.
  - split; [|done]. intros _ s Hs. by apply elem_of_nil in Hs.
  - split; [done|]. intros H. by destruct (H s (list_elem_of_here _ _)).
  - rewrite IH. split.
    + intros H s [Hs|Hs]%elem_of_cons; [done|by apply (H s)].
    + intros H s Hs. apply (H s). by right.
Qed.

Lemma text_labels_first pre d post :
  (∀ s, Str s ∉ pre) → text_labels (pre ++ Str d :: post) = d :: text_labels post.
Proof.
  induction pre as [|[s|shown] pre IH]; intros H; simpl.
  - done.
  - by destruct (H s (list_elem_of_here _ _)).
  - apply IH. intros s Hs. apply (H s). by right.
Qed.

(** What one pass does with a text that is not digits only. *)
Lemma classify_outcome user_input w :
  fullmatch_digits user_input = false →
  classify c user_input w
  = match truth (predict c user_input), text_labels (items (predict c user_input)) with
    | true, d :: ds =>
        Done (Some (d :: ds))
             {| stdin := stdin w; log := log w ++ [Predict user_input] |}
    | _, _ =>
        Done None
             {| stdin := stdin w;
                log := log w ++ [Predict user_input;
                                 Print (retry_message c user_input)] |}
    end.
Proof.
  intros Hd. unfold classify, retry_message. rewrite Hd, detected_text_labels.
  unfold mbind, M_bind, print, emit; cbn [log stdin].
  destruct (truth (predict c user_input));
    [destruct (text_labels _)|]; simpl; by rewrite <-?(assoc_L (++)).
Qed.

Lemma unrecognised_labels text :
  unrecognised c text ↔
  truth (predict c text) = false ∨ text_labels (items (predict c text)) = [].
Proof. unfold unrecognised. by rewrite text_labels_nil. Qed.

Lemma classify_unrecognised user_input w :
  fullmatch_digits user_input = false → unrecognised c user_input →
  classify c user_input w
  = Done None {| stdin := stdin w;
                 log := log w ++ [Predict user_input;
                                  Print (retry_message c user_input)] |}.
Proof.
  intros Hd Hu%unrecognised_labels. rewrite classify_outcome by done.
  destruct Hu as [-> | ->]; [done|]. by destruct (truth _).
Qed.

Lemma not_only_digits s : ¬ only_digits s → fullmatch_digits s = false.
Proof.
  intros H. destruct (fullmatch_digits s) eqn:E; [|done].
  by apply fullmatch_only_digits in E.
Qed.

(** X6.  What [safe_input] answers.  When [input] returns a line, the
    answer is that line stripped, so it neither starts nor ends with
    whitespace and stripping it again changes nothing, and the line is
    consumed; when [input] raises EOFError at end of input, the answer is
    the default as it is given, not stripped.  In both cases the prompt
    has been shown once. *)
Theorem safe_input_strips_lines_not_defaults (prompt default : string) (w : world) :
  (∀ line rest, stdin w = line :: rest →
     safe_input prompt default w
     = Done (strip line) {| stdin := rest; log := log w ++ [Prompt prompt] |}
     ∧ strip (strip line) = strip line
     ∧ (∀ ch t, strip line = String ch t → isspace ch = false)
     ∧ (∀ t ch, strip line = t +:+ String ch "" → isspace ch = false))
  ∧ (stdin w = [] →
     input prompt w = Raised EOFError {| stdin := []; log := log w ++ [Prompt prompt] |}
     ∧ safe_input prompt default w
       = Done default {| stdin := []; log := log w ++ [Prompt prompt] |}).
Proof.
  destruct w as [lines history]. cbn [stdin log]. split.
  - intros line rest ->. split_and!; [done|apply strip_idem|..]; apply strip_trimmed.
  - by intros ->.
Qed.

(** X7.  A symptom line that is not digits only but whose prediction has
    a false truth value, or no text among its labels, is passed to the
    model once and then asked again: the loop continues from its head
    after the message that goes with the case. *)
Theorem unrecognised_symptom_is_asked_again (line : string) (rest : list string)
    (history : list event) (fuel : nat) :
  ¬ only_digits (strip line) →
  let w := {| stdin := line :: rest; log := history |} in
  let retried message :=
    {| stdin := rest;
       log := history ++ [Prompt symptom_prompt; Predict (strip line);
                          Print message] |} in
  (truth (predict c (strip line)) = false →
     symptom_loop c (S fuel) w
     = symptom_loop c fuel
         (retried "I couldn't recognize those symptoms. Please try again."))
  ∧ (truth (predict c (strip line)) = true →
     (∀ s, Str s ∉ items (predict c (strip line))) →
     symptom_loop c (S fuel) w
     = symptom_loop c fuel
         (retried "Invalid input! Please enter recognizable symptoms.")).
Proof.
  intros Hd%not_only_digits w retried.
  assert (∀ message, unrecognised c (strip line) →
            retry_message c (strip line) = message →
            symptom_loop c (S fuel) w = symptom_loop c fuel (retried message)) as H.
  { intros message Hu <-.
    assert (symptom_iteration c w
            = Done None (retried (retry_message c (strip line)))) as Hit.
    { unfold symptom_iteration, w.
      rewrite (bind_Done _ _ _ _ _ (safe_input_line _ _ _ _ _)).
      rewrite classify_unrecognised by done.
      unfold retried; simpl. by rewrite <-(assoc_L (++)). }
    cbn [symptom_loop]. by rewrite (bind_Done _ _ _ _ _ Hit). }
  split.
  - intros Ht. apply H; [by left|]. unfold retry_message. by rewrite Ht.
  - intros Ht Hno. apply H; [by right|]. unfold retry_message. by rewrite Ht.
Qed.

(** *** What a step adds to the log *)

Section LogsOnly.

Context (P : event → Prop).

Lemma logs_ret {A} (a : A) : logs_only P (mret a).
Proof. intros w. exists []. by rewrite app_nil_r. Qed.

Lemma logs_raise {A} e : logs_only P (raise (A:=A) e).
Proof. intros w. exists []. by rewrite app_nil_r. Qed.

Lemma logs_lift {A} (r : result A) : logs_only P (lift r).
Proof. destruct r; [apply logs_ret|apply logs_raise]. Qed.

Lemma logs_emit e : P e → logs_only P (emit e).
Proof. intros He w. exists [e]. split; [done|]. by constructor. Qed.

Lemma logs_bind {A B} (m : M A) (k : A → M B) :
  logs_only P m → (∀ a, logs_only P (k a)) → logs_only P (m ≫= k).
Proof.
  intros Hm Hk w. destruct (Hm w) as (evs & Hlog & Hq).
  unfold mbind, M_bind. destruct (m w) as [a w'|e w'|w']; simpl in *; eauto.
  destruct (Hk a w') as (evs' & Hlog' & Hq').
  exists (evs ++ evs'). rewrite Hlog', Hlog, (assoc_L (++)).
  split; [done|]. by apply Forall_app.
Qed.

Lemma logs_safe_input prompt default :
  P (Prompt prompt) → logs_only P (safe_input prompt default).
Proof.
  intros HP w. destruct (safe_input_Done prompt default w) as [answer ->].
  exists [Prompt prompt]. split; [done|]. by constructor.
Qed.

Hypothesis P_print : ∀ text, P (Print text).

Lemma logs_print_items l : logs_only P (print_items l).
Proof.
  induction l as [|x l IH]; simpl; [apply logs_ret|].
  apply logs_bind; [by apply logs_emit|done].
Qed.

Lemma logs_classify user_input :
  (∀ text, P (Predict text)) → logs_only P (classify c user_input).
Proof.
  intros HP. unfold classify. destruct (fullmatch_digits user_input).
  { apply logs_bind; [by apply logs_emit|]. intros _. apply logs_ret. }
  apply logs_bind; [by apply logs_emit|]. intros _.
  destruct (truth _); [destruct (omap _ _)|];
    first [apply logs_ret
          |apply logs_bind; [by apply logs_emit|]; intros _; apply logs_ret].
Qed.

Lemma logs_symptom_loop fuel :
  (∀ text, P (Predict text)) → P (Prompt symptom_prompt) →
  logs_only P (symptom_loop c fuel).
Proof.
  intros HP Hprompt. induction fuel as [|fuel IH]; simpl.
  - intros w. exists []. by rewrite app_nil_r.
  - apply logs_bind.
    + apply logs_bind; [by apply logs_safe_input|]. intros u. by apply logs_classify.
    + intros [det|]; [apply logs_ret|done].
Qed.

Lemma logs_show_remedies disease :
  P (RemediesLookup disease) → logs_only P (show_remedies c disease).
Proof.
  intros HP. unfold show_remedies.
  apply logs_bind; [by apply logs_emit|]. intros _.
  apply logs_bind; [by apply logs_emit|]. intros _.
  apply logs_bind; [apply logs_lift|]. intros [|x l].
  - by apply logs_emit.
  - apply logs_bind; [by apply logs_emit|]. intros _. apply logs_print_items.
Qed.

Lemma logs_otc_step disease :
  P (Prompt otc_prompt) → P (OtcLookup disease) → logs_only P (otc_step c disease).
Proof.
  intros Hprompt HP. unfold otc_step, otc_reply.
  apply logs_bind; [by apply logs_safe_input|]. intros answer.
  repeat case_bool_decide; try by apply logs_emit.
  apply logs_bind; [by apply logs_emit|]. intros _.
  apply logs_bind; [apply logs_lift|]. intros [|x l].
  - by apply logs_emit.
  - apply logs_bind; [by apply logs_emit|]. intros _. apply logs_print_items.
Qed.

Lemma logs_location_step :
  P (Prompt location_prompt) → (∀ location lat lng, P (Geolocation location lat lng)) →
  (∀ lat lng, P (NearbyServices lat lng)) → logs_only P (location_step c).
Proof.
  intros Hprompt Hgeo Hnear. unfold location_step, locate.
  apply logs_bind; [by apply logs_safe_input|]. intros location.
  destruct (get_geolocation c location) as [lat lng].
  apply logs_bind; [by apply logs_emit|]. intros _.
  destruct (truthy lat && truthy lng); by apply logs_emit.
Qed.

End LogsOnly.

(** *** How a step can end *)

Section EndsIn.

Context (E : exn → Prop).

Lemma ends_ret {A} (Q : A → Prop) (a : A) : Q a → ends_in E Q (mret a).
Proof. by intros Ha w. Qed.

Lemma ends_emit (Q : () → Prop) e : Q () → ends_in E Q (emit e).
Proof. by intros Ha w. Qed.

Lemma ends_lift {A} (Q : A → Prop) (r : result A) :
  match r with Ok a => Q a | Raise e => E e end → ends_in E Q (lift r).
Proof. by destruct r; intros H w. Qed.

Lemma ends_in_bind {A B} (Q1 : A → Prop) (Q2 : B → Prop) (m : M A) (k : A → M B) :
  ends_in E Q1 m → (∀ a, Q1 a → ends_in E Q2 (k a)) → ends_in E Q2 (m ≫= k).
Proof.
  intros Hm Hk w. specialize (Hm w). unfold mbind, M_bind.
  destruct (m w) as [a w'|e w'|w']; [by apply Hk|done..].
Qed.

Lemma ends_safe_input prompt default :
  ends_in E (λ _, True) (safe_input prompt default).
Proof. intros w. by destruct (safe_input_Done prompt default w) as [answer ->]. Qed.

Lemma ends_print_items l : ends_in E (λ _, True) (print_items l).
Proof.
  induction l as [|x l IH]; simpl; [done|].
  eapply ends_in_bind; [by apply (ends_emit (λ _, True))|done].
Qed.

Lemma ends_classify user_input :
  ends_in E (λ r, ∀ det, r = Some det → det ≠ []) (classify c user_input).
Proof.
  intros w. unfold classify, mbind, M_bind, print, emit, mret, M_ret.
  destruct (fullmatch_digits user_input); [done|]. simpl.
  destruct (truth _); [|done].
  destruct (omap _ _) eqn:Eo; simpl; [done|]. by intros det [= <-].
Qed.

Lemma ends_symptom_loop fuel : ends_in E (λ det, det ≠ []) (symptom_loop c fuel).
Proof.
  induction fuel as [|fuel IH]; simpl; [done|].
  eapply ends_in_bind.
  - eapply ends_in_bind; [apply ends_safe_input|]. intros u _. apply ends_classify.
  - intros [det|] H; [|done]. apply ends_ret. by apply H.
Qed.

End EndsIn.

(** *** Lines read and prompts shown *)

Lemma prompts_app l1 l2 : prompts (l1 ++ l2) = prompts l1 ++ prompts l2.
Proof. apply omap_app. Qed.

Lemma reads_ret {A} (a : A) : reads 0 [] (mret a).
Proof. intros w a' w' [= _ <-]. by rewrite app_nil_r. Qed.

Lemma reads_raise {A} e : reads 0 [] (raise (A:=A) e).
Proof. by intros w a w'. Qed.

Lemma reads_lift {A} (r : result A) : reads 0 [] (lift r).
Proof. destruct r; [apply reads_ret|apply reads_raise]. Qed.

Lemma reads_emit e : prompts [e] = [] → reads 0 [] (emit e).
Proof.
  intros He w a w' [= _ <-]. simpl. by rewrite prompts_app, He.
Qed.

Lemma reads_bind {A B} k1 ps1 k2 ps2 (m : M A) (k : A → M B) :
  reads k1 ps1 m → (∀ a, reads k2 ps2 (k a)) →
  reads (k1 + k2) (ps1 ++ ps2) (m ≫= k).
Proof.
  intros Hm Hk w b w' (a & w1 & H1 & H2)%bind_Done_inv.
  destruct (Hm _ _ _ H1) as [Hs1 Hp1], (Hk _ _ _ _ H2) as [Hs2 Hp2].
  by rewrite Hs2, Hs1, drop_drop, Hp2, Hp1, (assoc_L (++)).
Qed.

Lemma reads_quiet_bind {A B} (m : M A) (k : A → M B) :
  reads 0 [] m → (∀ a, reads 0 [] (k a)) → reads 0 [] (m ≫= k).
Proof. apply (reads_bind 0 [] 0 []). Qed.

Lemma reads_safe_input prompt default : reads 1 [prompt] (safe_input prompt default).
Proof.
  intros w a w' H. destruct (safe_input_Done prompt default w) as [answer Ha].
  rewrite Ha in H. injection H as _ <-. simpl. split; [by destruct (stdin w)|].
  by rewrite prompts_app.
Qed.

Lemma reads_print_items l : reads 0 [] (print_items l).
Proof.
  induction l as [|x l IH]; simpl; [apply reads_ret|].
  apply reads_quiet_bind; [by apply reads_emit|done].
Qed.

Lemma reads_classify user_input : reads 0 [] (classify c user_input).
Proof.
  unfold classify. destruct (fullmatch_digits user_input).
  { apply reads_quiet_bind; [by apply reads_emit|]. intros _. apply reads_ret. }
  apply reads_quiet_bind; [by apply reads_emit|]. intros _.
  destruct (truth _); [destruct (omap _ _)|];
    first [apply reads_ret
          |apply reads_quiet_bind; [by apply reads_emit|]; intros _; apply reads_ret].
Qed.

Lemma reads_show_remedies disease : reads 0 [] (show_remedies c disease).
Proof.
  unfold show_remedies.
  apply reads_quiet_bind; [by apply reads_emit|]. intros _.
  apply reads_quiet_bind; [by apply reads_emit|]. intros _.
  apply reads_quiet_bind; [apply reads_lift|]. intros [|x l].
  - by apply reads_emit.
  - apply reads_quiet_bind; [by apply reads_emit|]. intros _. apply reads_print_items.
Qed.

Lemma reads_otc_step disease : reads 1 [otc_prompt] (otc_step c disease).
Proof.
  unfold otc_step, otc_reply.
  apply (reads_bind 1 [otc_prompt] 0 []); [apply reads_safe_input|]. intros answer.
  repeat case_bool_decide; try by apply reads_emit.
  apply reads_quiet_bind; [by apply reads_emit|]. intros _.
  apply reads_quiet_bind; [apply reads_lift|]. intros [|x l].
  - by apply reads_emit.
  - apply reads_quiet_bind; [by apply reads_emit|]. intros _. apply reads_print_items.
Qed.

Lemma reads_location_step : reads 1 [location_prompt] (location_step c).
Proof.
  unfold location_step, locate.
  apply (reads_bind 1 [location_prompt] 0 []); [apply reads_safe_input|].
  intros location. destruct (get_geolocation c location) as [lat lng].
  apply reads_quiet_bind; [by apply reads_emit|]. intros _.
  destruct (truthy lat && truthy lng); by apply reads_emit.
Qed.

Lemma reads_after_loop detected :
  reads 2 [otc_prompt; location_prompt] (after_loop c detected).
Proof.
  destruct detected as [|disease ds]; simpl; [by intros w a w'|].
  apply (reads_bind 0 [] 2 [otc_prompt; location_prompt]);
    [apply reads_show_remedies|]. intros _.
  apply (reads_bind 1 [otc_prompt] 1 [location_prompt]);
    [apply reads_otc_step|]. intros _. apply reads_location_step.
Qed.

Lemma reads_symptom_loop fuel w detected w' :
  symptom_loop c fuel w = Done detected w' →
  ∃ n, (1 ≤ n ≤ fuel)%nat
       ∧ stdin w' = drop n (stdin w)
       ∧ prompts (log w') = prompts (log w) ++ replicate n symptom_prompt.
Proof.
  revert w. induction fuel as [|fuel IH]; intros w; [done|]. cbn [symptom_loop].
  intros (r & w1 & Hit & Hk)%bind_Done_inv.
  assert (reads 1 [symptom_prompt] (symptom_iteration c)) as Hreads.
  { apply (reads_bind 1 [symptom_prompt] 0 []); [apply reads_safe_input|].
    apply reads_classify. }
  destruct (Hreads _ _ _ Hit) as [Hs Hp]. destruct r as [det|].
  - injection Hk as _ <-. exists 1. split_and!; [lia..|done|done].
  - destruct (IH _ Hk) as (n & Hn & Hs' & Hp').
    exists (S n). split_and!; [lia..| |].
    + by rewrite Hs', Hs, drop_drop.
    + rewrite Hp', Hp, <-(assoc_L (++)). done.
Qed.

(** *** The diagnosis and the remedies *)

Lemma show_remedies_outcome disease w :
  show_remedies c disease w
  = let told := log w ++ [Print ("I think you might have " +:+ disease +:+ ".");
                          RemediesLookup disease] in
    match get_remedies_for_disease disease (remedies_df c) with
    | Raise e => Raised e {| stdin := stdin w; log := told |}
    | Ok [] =>
        Done () {| stdin := stdin w;
                   log := told ++ [Print "No home remedies found for this disease."] |}
    | Ok remedies =>
        Done () {| stdin := stdin w;
                   log := told ++ Print "Here are some home remedies:"
                               :: ((λ remedy, Print ("- " +:+ str remedy)) <$> remedies) |}
    end.
Proof.
  unfold show_remedies.
  destruct (get_remedies_for_disease disease (remedies_df c)) as [[|x l]|e];
    unfold mbind, M_bind, print, emit; cbn -[print_items].
  - by rewrite <-!(assoc_L (++)).
  - rewrite print_items_log. cbn -[fmap]. by rewrite <-!(assoc_L (++)).
  - by rewrite <-!(assoc_L (++)).
Qed.

Lemma after_diagnosis_log disease w :
  ∃ evs, log (final ((show_remedies c disease;; otc_step c disease;; location_step c) w))
         = log w ++ Print ("I think you might have " +:+ disease +:+ ".") :: evs.
Proof.
  assert (logs_only (λ _, True) (otc_step c disease;; location_step c)) as Hrest.
  { apply logs_bind; [by apply logs_otc_step|]. intros _. by apply logs_location_step. }
  unfold mbind at 1, M_bind at 1. rewrite show_remedies_outcome.
  destruct (get_remedies_for_disease disease (remedies_df c)) as [[|x l]|e]; cbn [final log].
  - destruct (Hrest {| stdin := stdin w;
                       log := (log w ++ [Print ("I think you might have " +:+ disease +:+ ".");
                                         RemediesLookup disease])
                              ++ [Print "No home remedies found for this disease."] |})
      as (evs & -> & _).
    cbn [log]. rewrite <-!(assoc_L (++)). eauto.
  - destruct (Hrest {| stdin := stdin w;
                       log := (log w ++ [Print ("I think you might have " +:+ disease +:+ ".");
                                         RemediesLookup disease])
                              ++ Print "Here are some home remedies:"
                                 :: ((λ remedy, Print ("- " +:+ str remedy)) <$> x :: l) |})
      as (evs & -> & _).
    cbn [log]. rewrite <-!(assoc_L (++)). eauto.
  - eauto.
Qed.

(** X8.  The diagnosis is the first text among the labels the model
    predicts for the first line the loop accepts: labels that are not
    texts are skipped, the loop ends with that line consumed, and the
    conversation goes on with that disease, announcing it first. *)
Theorem first_text_label_is_the_diagnosis (line : string) (rest : list string)
    (fuel : nat) (pre post : list obj) (disease : string) :
  ¬ only_digits (strip line) →
  truth (predict c (strip line)) = true →
  items (predict c (strip line)) = pre ++ Str disease :: post →
  (∀ s, Str s ∉ pre) →
  let heard := {| stdin := rest;
                  log := [Print "Hello! I am your health assistant.";
                          Prompt symptom_prompt; Predict (strip line)] |} in
  process_user_input c (S fuel) (start (line :: rest))
  = (show_remedies c disease;; otc_step c disease;; location_step c) heard
  ∧ ∃ evs, log (final (process_user_input c (S fuel) (start (line :: rest))))
           = log heard ++ Print ("I think you might have " +:+ disease +:+ ".") :: evs.
Proof.
  intros Hd%not_only_digits Ht Hitems Hpre heard.
  assert (process_user_input c (S fuel) (start (line :: rest))
          = (show_remedies c disease;; otc_step c disease;; location_step c) heard) as Hrun.
  { unfold process_user_input, start. cbn [symptom_loop]. unfold symptom_iteration.
    unfold mbind at 1 2 3 4, M_bind at 1 2 3 4. simpl.
    rewrite classify_outcome by done.
    rewrite Ht, Hitems, (text_labels_first _ _ _ Hpre). done. }
  split; [done|]. rewrite Hrun. apply after_diagnosis_log.
Qed.

(** X9.  At end of input the symptom prompt keeps yielding "fever": when
    the model does not recognise it, the loop never ends.  However many
    passes are allowed, the loop is still running after them, having
    prompted, predicted and complained once per pass. *)
Theorem end_of_input_can_loop_forever (fuel : nat) (history : list event) :
  unrecognised c "fever" →
  let round := [Prompt symptom_prompt; Predict "fever";
                Print (retry_message c "fever")] in
  symptom_loop c fuel {| stdin := []; log := history |}
  = Running {| stdin := []; log := history ++ concat (replicate fuel round) |}
  ∧ process_user_input c fuel (start [])
    = Running {| stdin := [];
                 log := Print "Hello! I am your health assistant."
                        :: concat (replicate fuel round) |}.
Proof.
  intros Hu round.
  assert (∀ n h, symptom_loop c n {| stdin := []; log := h |}
                 = Running {| stdin := []; log := h ++ concat (replicate n round) |}) as H.
  { induction n as [|n IH]; intros h.
    - simpl. by rewrite app_nil_r.
    - assert (symptom_iteration c {| stdin := []; log := h |}
              = Done None {| stdin := []; log := h ++ round |}) as Hit.
      { unfold symptom_iteration.
        rewrite (bind_Done _ _ _ _ _ (safe_input_eof _ _ _)).
        rewrite classify_unrecognised by done.
        cbn [stdin log]. by rewrite <-(assoc_L (++)). }
      cbn [symptom_loop]. rewrite (bind_Done _ _ _ _ _ Hit), IH.
      cbn [replicate concat]. by rewrite <-!(assoc_L (++)). }
  split; [apply H|].
  unfold process_user_input, start. unfold mbind at 1, M_bind at 1. simpl.
  unfold mbind, M_bind. by rewrite (H fuel [Print "Hello! I am your health assistant."]).
Qed.

Lemma show_remedies_raises disease e w :
  getitem_str (remedies_df c) "DISEASE NAME" = Raise e →
  show_remedies c disease w
  = Raised e {| stdin := stdin w;
                log := log w ++ [Print ("I think you might have " +:+ disease +:+ ".");
                                 RemediesLookup disease] |}.
Proof.
  intros H. rewrite show_remedies_outcome. unfold get_remedies_for_disease.
  by rewrite H.
Qed.

(** X11.  With a remedies table that lacks its key column, or whose key
    column is not text, no conversation completes: a run is either still
    in the symptom loop or ends with the lookup's exception right after
    the diagnosis is announced, and neither the OTC prompt nor the
    geolocation call is ever reached. *)
Theorem broken_remedies_table_stops_the_conversation (fuel : nat)
    (lines : list string) (e : exn) :
  getitem_str (remedies_df c) "DISEASE NAME" = Raise e →
  let run := process_user_input c fuel (start lines) in
  (∀ w, run ≠ Done () w)
  ∧ (Prompt otc_prompt ∉ log (final run))
  ∧ (∀ location lat lng, Geolocation location lat lng ∉ log (final run))
  ∧ (∀ e' w, run = Raised e' w →
       e' = e ∧ ∃ disease evs,
         log w = evs ++ [Print ("I think you might have " +:+ disease +:+ ".");
                         RemediesLookup disease]).
Proof.
  intros Hkey run.
  set (P := λ ev, ev ≠ Prompt otc_prompt ∧ quiet ev).
  assert (logs_only P (symptom_loop c fuel)) as Hlogs
    by (by apply logs_symptom_loop).
  pose proof (ends_symptom_loop (λ _, False) fuel) as Hends.
  set (w0 := {| stdin := lines; log := [Print "Hello! I am your health assistant."] |}).
  specialize (Hlogs w0). specialize (Hends w0).
  destruct Hlogs as (evs & Hlog & HP).
  assert (∀ l, Forall P l → (Prompt otc_prompt ∉ l)
                            ∧ ∀ location lat lng, Geolocation location lat lng ∉ l) as Hnot.
  { intros l Hl. rewrite Forall_forall in Hl. split.
    - intros Hin. by destruct (Hl _ Hin).
    - intros location lat lng Hin. by destruct (Hl _ Hin) as [_ []]. }
  assert (run = (symptom_loop c fuel ≫= after_loop c) w0) as Hrun by done.
  unfold mbind, M_bind in Hrun.
  destruct (symptom_loop c fuel w0) as [detected w1|e' w1|w1]; [|done|];
    cbn [final] in Hlog.
  - destruct detected as [|disease ds]; [done|].
    cbn [after_loop] in Hrun. unfold mbind at 1, M_bind at 1 in Hrun.
    rewrite (show_remedies_raises _ _ _ Hkey) in Hrun.
    rewrite Hrun. cbn [final log]. rewrite Hlog.
    assert (Forall P (Print "Hello! I am your health assistant." :: evs
                      ++ [Print ("I think you might have " +:+ disease +:+ ".");
                          RemediesLookup disease])) as Hall.
    { constructor; [done|]. apply Forall_app. split; [done|].
      by repeat constructor. }
    split_and!; [done|apply (Hnot _ Hall)..|].
    intros e' w [= <- <-]. split; [done|]. cbn [log].
    exists disease, (Print "Hello! I am your health assistant." :: evs). done.
  - rewrite Hrun. cbn [final]. rewrite Hlog.
    assert (Forall P (Print "Hello! I am your health assistant." :: evs)) as Hall
      by (by constructor).
    split_and!; [done|apply (Hnot _ Hall)..|done].
Qed.

(** X12.  A run that completes has shown the symptom prompt once per line
    it tried, n of them with n at least 1, then the OTC prompt once, then
    the location prompt once, and has read exactly the first n + 2 input
    lines (fewer if input ended): nothing after them is consumed. *)
Theorem completed_run_prompts_and_input (fuel : nat) (lines : list string)
    (w : world) :
  process_user_input c fuel (start lines) = Done () w →
  ∃ n, (1 ≤ n ≤ fuel)%nat
       ∧ prompts (log w)
         = replicate n symptom_prompt ++ [otc_prompt; location_prompt]
       ∧ stdin w = drop (n + 2) lines.
Proof.
  unfold process_user_input.
  intros ([] & w0 & Hhello & (detected & w1 & Hloop & Hafter)%bind_Done_inv)%bind_Done_inv.
  injection Hhello as <-.
  destruct (reads_symptom_loop _ _ _ _ Hloop) as (n & Hn & Hs & Hp).
  destruct (reads_after_loop _ _ _ _ Hafter) as [Hs' Hp'].
  exists n. split_and!; [lia..| |].
  - by rewrite Hp', Hp, <-(assoc_L (++)).
  - by rewrite Hs', Hs, drop_drop.
Qed.

(** X13.  When both coordinates the geolocation collaborator returned are
    true values, the nearby-services collaborator is called with exactly
    that pair, as the last step of a run that ends normally, and it is
    called only that once; a float that is not a number counts as true. *)
Theorem truthy_coordinates_reach_nearby_services (fuel : nat) (lines : list string)
    (location : string) (lat lng : coord) :
  let run := process_user_input c fuel (start lines) in
  Geolocation location lat lng ∈ log (final run) →
  truthy lat = true → truthy lng = true →
  (∃ evs w, run = Done () w
            ∧ log w = evs ++ [Geolocation location lat lng; NearbyServices lat lng]
            ∧ ∀ a b, NearbyServices a b ∉ evs)
  ∧ (∀ a b, NearbyServices a b ∈ log (final run) → a = lat ∧ b = lng)
  ∧ truthy (CFloat nan) = true.
Proof.
  intros run Hin Hlat Hlng.
  destruct (located_run c fuel lines location lat lng Hin)
    as (evs & w & Hq & Hrun & Hlog).
  fold run in Hrun. rewrite Hlat, Hlng in Hlog. cbn [andb] in Hlog.
  split_and!; [|..|done].
  - exists evs, w. split_and!; [done..|]. intros a b. by apply quiet_not_nearby.
  - intros a b. rewrite Hrun. cbn [final]. rewrite Hlog.
    intros [Hn|Hn]%elem_of_app; [by destruct (quiet_not_nearby evs a b Hq)|].
    apply elem_of_cons in Hn as [Hn|Hn]; [done|].
    apply list_elem_of_singleton in Hn. by injection Hn as -> ->.
Qed.

(** X14.  The remedies section of the conversation shows what the lookup
    returned: after the diagnosis, either the lookup's exception ends the
    step, or the message that none were found is printed for an empty
    result, or a heading and then one line per remedy, each prefixed with
    "- ", in the order returned; there are never more than 6 such
    lines. *)
Theorem remedies_are_listed_in_order (disease : string) (w : world) :
  let told := log w ++ [Print ("I think you might have " +:+ disease +:+ ".");
                        RemediesLookup disease] in
  match get_remedies_for_disease disease (remedies_df c) with
  | Raise e => show_remedies c disease w = Raised e {| stdin := stdin w; log := told |}
  | Ok remedies =>
      (length remedies ≤ 6)%nat
      ∧ show_remedies c disease w
        = Done () {| stdin := stdin w;
                     log := told ++
                       match remedies with
                       | [] => [Print "No home remedies found for this disease."]
                       | _ => Print "Here are some home remedies:"
                              :: ((λ remedy, Print ("- " +:+ str remedy)) <$> remedies)
                       end |}
  end.
Proof.
  intros told. rewrite show_remedies_outcome.
  destruct (get_remedies_for_disease disease (remedies_df c)) as [remedies|e] eqn:E;
    [|done].
  split; [|by destruct remedies].
  revert E. unfold get_remedies_for_disease, dropna_tolist, iloc_row.
  destruct (getitem_str _ _); [|done].
  destruct (first_selected _); intros [= <-]; [|simpl; lia].
  etrans; [apply length_omap_le|]. rewrite length_fmap, length_take. lia.
Qed.

Lemma symptom_iteration_outcome w r w1 :
  symptom_iteration c w = Done r w1 →
  ∃ text evs,
    log w1 = log w ++ evs
    ∧ match r with
      | None => True
      | Some detected =>
          evs = [Prompt symptom_prompt; Predict text]
          ∧ ¬ only_digits text
          ∧ truth (predict c text) = true
          ∧ detected = text_labels (items (predict c text))
          ∧ detected ≠ []
      end.
Proof.
  unfold symptom_iteration.
  intros (text & w0 & Hin & Hcl)%bind_Done_inv.
  destruct (safe_input_Done symptom_prompt "fever" w) as [answer Ha].
  rewrite Ha in Hin. injection Hin as -> <-. exists text.
  destruct (fullmatch_digits text) eqn:Hd.
  - unfold classify in Hcl. rewrite Hd in Hcl.
    injection Hcl as <- <-. cbn [log]. rewrite <-(assoc_L (++)). eauto.
  - rewrite classify_outcome in Hcl by done. cbn [log stdin] in Hcl.
    destruct (truth (predict c text)) eqn:Ht;
      [destruct (text_labels (items (predict c text))) as [|d ds] eqn:El|];
      injection Hcl as <- <-; cbn [log]; rewrite <-(assoc_L (++));
      eexists; (split; [reflexivity|]); try done.
    split_and!; [done| |done..].
    intros Hdigits%fullmatch_only_digits. congruence.
Qed.

(** X10.  When the symptom loop ends, [detected_symptoms] is not empty:
    the last thing the loop did was to prompt and to ask the model about
    a text that is not digits only, the prediction had a true truth value,
    and [detected_symptoms] is the list of the texts among its labels, in
    order.  So [detected_symptoms[0]] on line 79 is the first of them,
    never an IndexError, and what follows the loop is the announcement,
    the remedies, the OTC step and the location step for that disease. *)
Theorem loop_ends_with_text_labels (fuel : nat) (w w' : world)
    (detected_symptoms : list string) :
  symptom_loop c fuel w = Done detected_symptoms w' →
  ∃ text evs disease others,
    log w' = log w ++ evs ++ [Prompt symptom_prompt; Predict text]
    ∧ ¬ only_digits text
    ∧ truth (predict c text) = true
    ∧ detected_symptoms = text_labels (items (predict c text))
    ∧ detected_symptoms = disease :: others
    ∧ after_loop c detected_symptoms
      = (show_remedies c disease;; otc_step c disease;; location_step c).
Proof.
  revert w. induction fuel as [|fuel IH]; intros w; [done|]. cbn [symptom_loop].
  intros (r & w1 & Hit & Hk)%bind_Done_inv.
  destruct (symptom_iteration_outcome _ _ _ Hit) as (text & evs & Hlog & Hr).
  destruct r as [detected|].
  - injection Hk as <- <-. destruct Hr as (-> & Hd & Ht & Hdet & Hne).
    destruct detected as [|disease others]; [done|].
    exists text, [], disease, others. by split_and!.
  - destruct (IH _ Hk) as (text' & evs' & disease & others & Hlog' & H).
    exists text', (evs ++ evs'), disease, others. split; [|done].
    by rewrite Hlog', Hlog, <-!(assoc_L (++)).
Qed.

End MoreConversation.

Example safe_input_outcomes :
  safe_input "? " " dflt " (start ["  Yes  "; "x"])
  = Done "Yes" {| stdin := ["x"]; log := [Prompt "? "] |}
  ∧ safe_input "? " " dflt " (start [])
    = Done " dflt " {| stdin := []; log := [Prompt "? "] |}.
Proof. split; reflexivity. Qed.

Lemma safe_input_strips_lines_not_defaults_witness :
  (safe_input otc_prompt "no" (start ["  Yes  "; "Paris"])
   = Done "Yes" {| stdin := ["Paris"]; log := [Prompt otc_prompt] |}
   ∧ strip "Yes" = "Yes")
  ∧ safe_input location_prompt " New York " (start [])
    = Done " New York " {| stdin := []; log := [Prompt location_prompt] |}.
Proof.
  split.
  - destruct (proj1 (safe_input_strips_lines_not_defaults otc_prompt "no"
                       (start ["  Yes  "; "Paris"])) "  Yes  " ["Paris"])
      as (H1 & H2 & _); [reflexivity|].
    split; [exact H1|exact H2].
  - apply (proj2 (safe_input_strips_lines_not_defaults location_prompt " New York "
                    (start []))).
    reflexivity.
Defined.

Lemma unrecognised_symptom_is_asked_again_witness :
  symptom_loop sample 2 (start ["cough"; "headache"])
  = symptom_loop sample 1
      {| stdin := ["headache"];
         log := [Prompt symptom_prompt; Predict "cough";
                 Print "I couldn't recognize those symptoms. Please try again."] |}
  ∧ symptom_loop sample 2 (start [" ??? "; "headache"])
    = symptom_loop sample 1
        {| stdin := ["headache"];
           log := [Prompt symptom_prompt; Predict "???";
                   Print "Invalid input! Please enter recognizable symptoms."] |}.
Proof.
  split.
  - destruct (unrecognised_symptom_is_asked_again sample "cough" ["headache"] [] 1)
      as [H _].
    { intros Hd%fullmatch_only_digits. discriminate Hd. }
    apply H. reflexivity.
  - destruct (unrecognised_symptom_is_asked_again sample " ??? " ["headache"] [] 1)
      as [_ H].
    { intros Hd%fullmatch_only_digits. discriminate Hd. }
    apply H.
    + reflexivity.
    + intros s Hs. change (Str s ∈ [Other "0"]) in Hs.
      apply list_elem_of_singleton in Hs. discriminate Hs.
Defined.

Lemma first_text_label_is_the_diagnosis_witness :
  process_user_input sample 1 (start ["fever"; "no"; "Paris"])
  = (show_remedies sample "Fever";; otc_step sample "Fever";; location_step sample)
      {| stdin := ["no"; "Paris"];
         log := [Print "Hello! I am your health assistant.";
                 Prompt symptom_prompt; Predict "fever"] |}.
Proof.
  destruct (first_text_label_is_the_diagnosis sample "fever" ["no"; "Paris"] 0
              [Other "7"] [] "Fever") as [H _].
  - intros Hd%fullmatch_only_digits. discriminate Hd.
  - reflexivity.
  - reflexivity.
  - intros s Hs%list_elem_of_singleton. discriminate Hs.
  - exact H.
Defined.

Lemma end_of_input_can_loop_forever_witness :
  process_user_input mute 3 (start [])
  = Running
      {| stdin := [];
         log := Print "Hello! I am your health assistant."
                :: concat (replicate 3 [Prompt symptom_prompt; Predict "fever";
                                        Print (retry_message mute "fever")]) |}.
Proof.
  apply (proj2 (end_of_input_can_loop_forever mute 3 [] (or_introl eq_refl))).
Defined.

Lemma broken_remedies_table_stops_the_conversation_witness :
  (∀ w, process_user_input unkeyed 3 (start ["headache"; "yes"; "Paris"]) ≠ Done () w)
  ∧ (Prompt otc_prompt
       ∉ log (final (process_user_input unkeyed 3 (start ["headache"; "yes"; "Paris"])))).
Proof.
  destruct (broken_remedies_table_stops_the_conversation unkeyed 3
              ["headache"; "yes"; "Paris"] KeyError) as (H1 & H2 & _).
  - reflexivity.
  - split; [exact H1|exact H2].
Defined.

Lemma completed_run_prompts_and_input_witness :
  ∃ n, (1 ≤ n ≤ 2)%nat
       ∧ prompts (log (final (process_user_input sample 2
                                (start ["12345"; "headache"; "YES"; "Paris"; "unread"]))))
         = replicate n symptom_prompt ++ [otc_prompt; location_prompt]
       ∧ stdin (final (process_user_input sample 2
                         (start ["12345"; "headache"; "YES"; "Paris"; "unread"])))
         = drop (n + 2) ["12345"; "headache"; "YES"; "Paris"; "unread"].
Proof.
  apply (completed_run_prompts_and_input sample 2
           ["12345"; "headache"; "YES"; "Paris"; "unread"]).
  vm_compute. reflexivity.
Defined.

Lemma truthy_coordinates_reach_nearby_services_witness :
  ∃ evs w,
    process_user_input sample 1 (start ["headache"; "no"; "Paris"]) = Done () w
    ∧ log w = evs ++ [Geolocation "Paris" (CFloat 48.5) (CFloat 2.25);
                      NearbyServices (CFloat 48.5) (CFloat 2.25)]
    ∧ ∀ a b, NearbyServices a b ∉ evs.
Proof.
  apply (truthy_coordinates_reach_nearby_services sample 1 ["headache"; "no"; "Paris"]
           "Paris" (CFloat 48.5) (CFloat 2.25)).
  - vm_compute. in_list.
  - reflexivity.
  - reflexivity.
Defined.

Example completed_run_reads_four_lines :
  stdin (final (process_user_input sample 2
                  (start ["12345"; "headache"; "YES"; "Paris"; "unread"])))
  = ["unread"].
Proof. vm_compute. reflexivity. Qed.

Lemma loop_ends_with_text_labels_witness :
  ∃ text evs disease others,
    [Prompt symptom_prompt;
     Print "Invalid input! Please enter valid symptoms (not numbers).";
     Prompt symptom_prompt; Predict "fever"]
    = [] ++ evs ++ [Prompt symptom_prompt; Predict text]
    ∧ ¬ only_digits text
    ∧ truth (predict sample text) = true
    ∧ ["Fever"] = text_labels (items (predict sample text))
    ∧ ["Fever"] = disease :: others
    ∧ after_loop sample ["Fever"]
      = (show_remedies sample disease;; otc_step sample disease;; location_step sample).
Proof.
  apply (loop_ends_with_text_labels sample 2 (start ["12345"; " fever "; "no"])
           {| stdin := ["no"];
              log := [Prompt symptom_prompt;
                      Print "Invalid input! Please enter valid symptoms (not numbers).";
                      Prompt symptom_prompt; Predict "fever"] |}
           ["Fever"]).
  reflexivity.
Defined.

(** ** The start of the script and the liveness responder: properties *)

Section ServerFacts.

Lemma int_isspace_blank ch s : int_isspace ch = true → blank s → blank (String ch s).
Proof.
  intros H Hs ch' [->|Hin]%elem_of_cons; [|by apply Hs].
  destruct ch as [[] [] [] [] [] [] [] []]; try discriminate H;
    repeat first [apply list_elem_of_here | apply list_elem_of_further].
Qed.

Lemma append_assoc (s1 s2 s3 : string) : (s1 +:+ s2) +:+ s3 = s1 +:+ s2 +:+ s3.
Proof.
  induction s1 as [|ch s1 IH]; [done|].
  change (String ch ((s1 +:+ s2) +:+ s3) = String ch (s1 +:+ s2 +:+ s3)).
  by rewrite IH.
Qed.

Lemma blank_empty : blank "".
Proof. intros ch Hin. by apply elem_of_nil in Hin. Qed.

Lemma int_rstrip_split s : ∃ r, s = int_rstrip s +:+ r ∧ blank r.
Proof.
  induction s as [|ch s (r & Hs & Hr)]; simpl.
  - exists "". split; [done|apply blank_empty].
  - destruct (int_rstrip s) as [|ch' t] eqn:E.
    + simpl in Hs. subst s. destruct (int_isspace ch) eqn:Hch.
      * exists (String ch r). split; [done|]. by apply int_isspace_blank.
      * by exists r.
    + exists r. split; [|done]. simpl. by rewrite Hs at 1.
Qed.

Lemma int_lstrip_split s : ∃ l, s = l +:+ int_lstrip s ∧ blank l.
Proof.
  induction s as [|ch s (l & Hs & Hl)]; simpl.
  - exists "". split; [done|apply blank_empty].
  - destruct (int_isspace ch) eqn:Hch.
    + exists (String ch l). split; [simpl; by rewrite Hs at 1|].
      by apply int_isspace_blank.
    + exists "". split; [done|apply blank_empty].
Qed.

Lemma int_digits_groups s :
  (∀ acc v, int_digits false acc s = Some v → digit_groups s)
  ∧ (∀ acc v ch, decimal_digit ch → int_digits true acc s = Some v →
       digit_groups (String ch s)).
Proof.
  induction s as [|c s [IH1 IH2]]; simpl.
  - split; [done|]. intros _ _ ch Hch _. by constructor.
  - split.
    + intros acc v. destruct (isdigit c) eqn:Hc.
      * intros H. eapply IH2; [by apply isdigit_decimal|done].
      * by rewrite andb_false_r.
    + intros acc v ch Hch. destruct (isdigit c) eqn:Hc.
      * intros H. apply groups_digit; [done|].
        eapply IH2; [by apply isdigit_decimal|done].
      * rewrite andb_true_r. case_bool_decide as Hus; [|done]. subst c.
        intros H. apply groups_underscore; [done|]. by eapply IH1.
Qed.

Lemma int_unsigned_groups s v : int_unsigned s = Some v → digit_groups s.
Proof.
  destruct s as [|c s]; [done|]. unfold int_unsigned.
  destruct (isdigit c); [|done]. apply int_digits_groups.
Qed.

(** [int] accepts numeric texts only. *)
Lemma int_of_str_numeric limit s v : int_of_str limit s = Ok v → numeric s.
Proof.
  unfold int_of_str.
  destruct (int_rstrip_split s) as (r & Hs & Hr).
  destruct (int_lstrip_split (int_rstrip s)) as (l & Ht & Hl).
  set (t := int_lstrip (int_rstrip s)) in *.
  assert (s = l +:+ t +:+ r) as Hsplit.
  { rewrite Hs at 1. rewrite Ht at 1. by rewrite append_assoc. }
  assert (∀ sign body,
    (sign = "" ∨ sign = "+" ∨ sign = "-") → t = sign +:+ body →
    is_Some (int_unsigned body) → numeric s) as Hnum.
  { intros sign body Hsign -> [u Hu]. exists l, sign, body, r.
    split_and!; [|done..|by eapply int_unsigned_groups].
    by rewrite Hsplit, append_assoc. }
  clearbody t. intros H.
  destruct t as [|c t'].
  - apply (Hnum "" ""); [auto|done|]. by destruct (int_unsigned "").
  - destruct (decide (c = "+"%char)) as [->|Hplus].
    { apply (Hnum "+" t'); [auto|done|]. by destruct (int_unsigned t'). }
    destruct (decide (c = "-"%char)) as [->|Hminus].
    { apply (Hnum "-" t'); [auto|done|]. by destruct (int_unsigned t'). }
    apply (Hnum "" (String c t')); [auto|done|].
    assert (match String c t' with
            | String "+" r0 => (false, r0)
            | String "-" r0 => (true, r0)
            | _ => (false, String c t')
            end = (false, String c t')) as Hm.
    { destruct c as [[] [] [] [] [] [] [] []]; done. }
    rewrite Hm in H. by destruct (int_unsigned (String c t')).
Qed.

Lemma int_of_str_raises limit s e : int_of_str limit s = Raise e → e = ValueError.
Proof.
  unfold int_of_str.
  destruct (match int_lstrip (int_rstrip s) with
            | String "+" r => (false, r)
            | String "-" r => (true, r)
            | _ => (false, int_lstrip (int_rstrip s))
            end) as [negative body].
  destruct (int_unsigned body); [|congruence].
  destruct limit as [n|]; [case_bool_decide|]; congruence.
Qed.

Lemma digit_groups_has_digit s :
  digit_groups s → ∃ ch, ch ∈ list_ascii_of_string s ∧ decimal_digit ch.
Proof. destruct 1 as [ch ?|ch ? ? ?|ch ? ? ?]; exists ch; (split; [by left|done]). Qed.

Lemma list_ascii_append s1 s2 :
  list_ascii_of_string (s1 +:+ s2) = list_ascii_of_string s1 ++ list_ascii_of_string s2.
Proof.
  induction s1 as [|ch s1 IH]; [done|].
  change (ch :: list_ascii_of_string (s1 +:+ s2)
          = ch :: (list_ascii_of_string s1 ++ list_ascii_of_string s2)).
  by rewrite IH.
Qed.

(** A numeric text has a decimal digit in it. *)
Lemma numeric_has_digit s :
  numeric s → ∃ ch, ch ∈ list_ascii_of_string s ∧ decimal_digit ch.
Proof.
  intros (l & sign & body & r & -> & _ & _ & _ & (ch & Hin & Hd)%digit_groups_has_digit).
  exists ch. split; [|done].
  rewrite !list_ascii_append, !elem_of_app. auto.
Qed.

(** *** [numeric] is exactly what [int] accepts *)

Lemma decimal_not_space ch : decimal_digit ch → int_isspace ch = false.
Proof.
  unfold decimal_digit. intros H.
  repeat (apply elem_of_cons in H as [->|H]; [done|]).
  by apply elem_of_nil in H.
Qed.

Lemma blank_cons ch s : blank (String ch s) → int_isspace ch = true ∧ blank s.
Proof.
  intros H. split.
  - specialize (H ch (list_elem_of_here _ _)).
    repeat (apply elem_of_cons in H as [->|H]; [done|]).
    by apply elem_of_nil in H.
  - intros ch' Hin. apply H. by right.
Qed.

Lemma int_rstrip_blank r : blank r → int_rstrip r = "".
Proof.
  induction r as [|ch r IH]; [done|]. intros [Hch Hr]%blank_cons.
  simpl. by rewrite (IH Hr), Hch.
Qed.

Lemma int_rstrip_append t r : blank r → int_rstrip (t +:+ r) = int_rstrip t.
Proof.
  intros Hr. induction t as [|ch t IH].
  - by apply int_rstrip_blank.
  - change (int_rstrip (String ch (t +:+ r)) = int_rstrip (String ch t)).
    simpl. by rewrite IH.
Qed.

Lemma int_lstrip_append l t : blank l → int_lstrip (l +:+ t) = int_lstrip t.
Proof.
  induction l as [|ch l IH]; [done|]. intros [Hch Hl]%blank_cons.
  change (int_lstrip (String ch (l +:+ t)) = int_lstrip t).
  simpl. by rewrite Hch, IH.
Qed.

Lemma digit_groups_rstrip s : digit_groups s → int_rstrip s = s ∧ s ≠ "".
Proof.
  induction 1 as [ch Hch|ch s Hch _ [IH Hne]|ch s Hch _ [IH Hne]]; simpl.
  - by rewrite (decimal_not_space _ Hch).
  - rewrite IH. by destruct s.
  - rewrite IH. by destruct s.
Qed.

Lemma digit_groups_first s :
  digit_groups s → ∃ ch s', s = String ch s' ∧ decimal_digit ch.
Proof. destruct 1; eauto. Qed.

Lemma digit_groups_digits s :
  digit_groups s →
  ∀ acc, is_Some (int_digits false acc s) ∧ is_Some (int_digits true acc s).
Proof.
  induction 1 as [ch Hch|ch s Hch _ IH|ch s Hch _ IH]; intros acc; simpl;
    rewrite (decimal_isdigit _ Hch).
  - eauto.
  - split; apply IH.
  - simpl. split; apply IH.
Qed.

Lemma digit_groups_unsigned s : digit_groups s → is_Some (int_unsigned s).
Proof.
  intros H. destruct (digit_groups_first s H) as (ch & s' & -> & Hch).
  unfold int_unsigned. rewrite (decimal_isdigit _ Hch).
  by apply digit_groups_digits.
Qed.

Lemma count_digits_append s1 s2 :
  count_digits (s1 +:+ s2) = (count_digits s1 + count_digits s2)%nat.
Proof.
  induction s1 as [|ch s1 IH]; [done|].
  change (count_digits (String ch (s1 +:+ s2))
          = (count_digits (String ch s1) + count_digits s2)%nat).
  simpl. rewrite IH. lia.
Qed.

(** A numeric text is accepted by [int], unless it has more digits than the
    interpreter allows. *)
Lemma int_of_str_accepts limit s :
  numeric s → (∀ n, limit = Some n → (count_digits s ≤ n)%nat) →
  ∃ v, int_of_str limit s = Ok v.
Proof.
  intros (l & sign & body & r & -> & Hl & Hr & Hsign & Hbody) Hlimit.
  assert (match limit with
          | Some n => bool_decide (n < count_digits body)
          | None => false
          end = false) as Hcheck.
  { destruct limit as [n|]; [|done]. apply bool_decide_eq_false_2.
    specialize (Hlimit n eq_refl). rewrite !count_digits_append in Hlimit. lia. }
  clear Hlimit.
  destruct (digit_groups_rstrip body Hbody) as [Hrs Hne].
  destruct (digit_groups_first body Hbody) as (ch & body' & Hb & Hch).
  destruct (digit_groups_unsigned body Hbody) as [v Hv].
  assert (int_lstrip (int_rstrip (l +:+ sign +:+ body +:+ r)) = sign +:+ body) as Ht.
  { rewrite <-!append_assoc, (int_rstrip_append _ r Hr), !append_assoc.
    assert (int_rstrip (l +:+ sign +:+ body) = l +:+ sign +:+ body) as ->.
    { rewrite <-append_assoc.
      assert (∀ p, int_rstrip (p +:+ body) = p +:+ body) as Hp.
      { induction p as [|c p IHp]; [done|].
        change (int_rstrip (String c (p +:+ body)) = String c (p +:+ body)).
        simpl. rewrite IHp. destruct (p +:+ body) eqn:E; [|done].
        destruct p; [simpl in E; by subst|done]. }
      apply Hp. }
    rewrite (int_lstrip_append _ _ Hl).
    destruct Hsign as [-> | [-> | ->]]; [|done..].
    rewrite Hb. simpl. by rewrite (decimal_not_space _ Hch). }
  unfold int_of_str. rewrite Ht. clear Ht.
  destruct Hsign as [-> | [-> | ->]].
  - subst body. unfold decimal_digit in Hch.
    repeat (apply elem_of_cons in Hch as [->|Hch];
            [cbv [String.append]; rewrite Hv, Hcheck; eauto|]).
    by apply elem_of_nil in Hch.
  - cbv [String.append]. rewrite Hv, Hcheck. eauto.
  - cbv [String.append]. rewrite Hv, Hcheck. eauto.
Qed.

Lemma decimal_not_underscore ch : decimal_digit ch → ch ≠ "_"%char.
Proof.
  unfold decimal_digit. intros H.
  repeat (apply elem_of_cons in H as [->|H]; [done|]).
  by apply elem_of_nil in H.
Qed.

(** The parser gives the digits of a text of digit groups their positional
    value. *)
Lemma digit_groups_value s :
  digit_groups s →
  ∀ acc after_digit,
    int_digits after_digit acc s
    = Some (acc * 10 ^ Z.of_nat (String.length (digits_of s))
            + positional (digits_of s))%Z.
Proof.
  induction 1 as [ch Hch|ch s Hch _ IH|ch s Hch _ IH]; intros acc after_digit;
    cbn [int_digits digits_of];
    rewrite (decimal_isdigit _ Hch),
            (bool_decide_eq_false_2 _ (decimal_not_underscore _ Hch)).
  - simpl. f_equal. unfold digit_value, ord. lia.
  - rewrite IH. f_equal. cbn [String.length positional]. unfold digit_value, ord.
    rewrite Nat2Z.inj_succ, Z.pow_succ_r by lia. lia.
  - cbn [int_digits digits_of].
    change (isdigit "_") with false. cbn [andb].
    rewrite bool_decide_eq_true_2 by done. cbn [andb].
    rewrite IH. f_equal. cbn [String.length positional]. unfold digit_value, ord.
    rewrite Nat2Z.inj_succ, Z.pow_succ_r by lia. lia.
Qed.

Lemma count_digits_length s : (count_digits s ≤ String.length s)%nat.
Proof. induction s as [|ch s IH]; [done|]. simpl. destruct (isdigit ch); lia. Qed.

Lemma length_append s1 s2 :
  String.length (s1 +:+ s2) = (String.length s1 + String.length s2)%nat.
Proof.
  induction s1 as [|ch s1 IH]; [done|].
  change (S (String.length (s1 +:+ s2)) = S (String.length s1 + String.length s2)).
  by rewrite IH.
Qed.

(** [int] gives a numeric text the number it denotes, unless the text is
    longer than the interpreter allows. *)
Lemma int_of_str_denotes limit s z :
  denotes s z → (∀ n, limit = Some n → (String.length s ≤ n)%nat) →
  int_of_str limit s = Ok z.
Proof.
  intros (l & sign & body & r & -> & Hl & Hr & Hbody & Hz) Hlimit.
  assert (sign = "" ∨ sign = "+" ∨ sign = "-") as Hsign by (destruct Hz as [[[|] _]|[? _]]; auto).
  assert (match limit with
          | Some n => bool_decide (n < count_digits body)
          | None => false
          end = false) as Hcheck.
  { destruct limit as [n|]; [|done]. apply bool_decide_eq_false_2.
    specialize (Hlimit n eq_refl). rewrite !length_append in Hlimit.
    pose proof (count_digits_length body). lia. }
  clear Hlimit.
  destruct (digit_groups_rstrip body Hbody) as [Hrs Hne].
  destruct (digit_groups_first body Hbody) as (ch & body' & Hb & Hch).
  assert (int_unsigned body = Some (positional (digits_of body))) as Hv.
  { unfold int_unsigned. destruct body as [|c b]; [done|]. injection Hb as -> ->.
    rewrite (decimal_isdigit _ Hch), (digit_groups_value _ Hbody). f_equal; lia. }
  assert (int_lstrip (int_rstrip (l +:+ sign +:+ body +:+ r)) = sign +:+ body) as Ht.
  { rewrite <-!append_assoc, (int_rstrip_append _ r Hr), !append_assoc.
    assert (int_rstrip (l +:+ sign +:+ body) = l +:+ sign +:+ body) as ->.
    { rewrite <-append_assoc.
      assert (∀ p, int_rstrip (p +:+ body) = p +:+ body) as Hp.
      { induction p as [|c p IHp]; [done|].
        change (int_rstrip (String c (p +:+ body)) = String c (p +:+ body)).
        simpl. rewrite IHp. destruct (p +:+ body) eqn:E; [|done].
        destruct p; [simpl in E; by subst|done]. }
      apply Hp. }
    rewrite (int_lstrip_append _ _ Hl).
    destruct Hsign as [-> | [-> | ->]]; [|done..].
    rewrite Hb. simpl. by rewrite (decimal_not_space _ Hch). }
  unfold int_of_str. rewrite Ht. clear Ht.
  destruct Hz as [[[-> | ->] ->]|[-> ->]].
  - revert Hv Hcheck. rewrite Hb. intros Hv Hcheck. unfold decimal_digit in Hch.
    repeat (apply elem_of_cons in Hch as [->|Hch];
            [cbv [String.append]; by rewrite Hv, Hcheck|]).
    by apply elem_of_nil in Hch.
  - cbv [String.append]. by rewrite Hv, Hcheck.
  - cbv [String.append]. by rewrite Hv, Hcheck.
Qed.

Lemma numeric_denotes s : numeric s ↔ ∃ z, denotes s z.
Proof.
  split.
  - intros (l & sign & body & r & Hs & Hl & Hr & Hsign & Hbody).
    destruct Hsign as [Hsign | [Hsign | Hsign]].
    + exists (positional (digits_of body)), l, sign, body, r. split_and!; auto.
    + exists (positional (digits_of body)), l, sign, body, r. split_and!; auto.
    + exists (- positional (digits_of body))%Z, l, sign, body, r. split_and!; auto.
  - intros (z & l & sign & body & r & Hs & Hl & Hr & Hbody & Hz).
    exists l, sign, body, r. split_and!; [done..| |done].
    destruct Hz as [[[|] _]|[? _]]; auto.
Qed.

(** C10.  The port comes from the PORT environment variable: unset, the
    port is 8080 and the script binds it; set to a numeric text, the port
    is the number the text denotes and, when it can be bound, the script
    listens on it, says so and serves; set to a text that is not numeric,
    [int] raises ValueError and the script ends there, before it binds,
    listens or serves. *)
Theorem port_from_environment (limit : option nat) (bind : Z → option exn)
    (environ : gmap string string) :
  (environ !! "PORT" = None →
     PORT limit environ = Ok 8080%Z
     ∧ script limit bind environ
       = match bind 8080%Z with
         | None => ([StartThread; Listen 8080; Say "Serving at port 8080";
                     ServeForever], None)
         | Some e => ([StartThread], Some e)
         end)
  ∧ (∀ s port, environ !! "PORT" = Some s → denotes s port →
       (∀ n, limit = Some n → (String.length s ≤ n)%nat) →
       PORT limit environ = Ok port
       ∧ ((0 ≤ port ≤ 65535)%Z → bind port = None →
          script limit bind environ
          = ([StartThread; Listen port; Say ("Serving at port " +:+ pretty port);
              ServeForever], None)))
  ∧ (∀ s, environ !! "PORT" = Some s → ¬ numeric s →
       PORT limit environ = Raise ValueError
       ∧ script limit bind environ = ([StartThread], Some ValueError)).
Proof.
  split_and!.
  - intros H. unfold script, PORT. rewrite H. split; [done|].
    rewrite bool_decide_eq_true_2 by lia. by destruct (bind 8080%Z).
  - intros s port H Hden Hlimit. unfold script, PORT.
    rewrite H, (int_of_str_denotes _ _ _ Hden Hlimit).
    split; [done|]. intros Hrange ->. by rewrite bool_decide_eq_true_2.
  - intros s H Hnum. unfold script, PORT. rewrite H.
    destruct (int_of_str limit s) as [v|e] eqn:E.
    + destruct Hnum. by eapply int_of_str_numeric.
    + by rewrite (int_of_str_raises _ _ _ E).
Qed.










End ServerFacts.



Lemma port_from_environment_witness :
  (PORT (Some 4300) ∅ = Ok 8080%Z
   ∧ script (Some 4300) free_host ∅
     = ([StartThread; Listen 8080; Say "Serving at port 8080"; ServeForever], None))
  ∧ (PORT (Some 4300) {["PORT" := " +8_081 "]} = Ok 8081%Z
     ∧ script (Some 4300) free_host {["PORT" := " +8_081 "]}
       = ([StartThread; Listen 8081; Say ("Serving at port " +:+ pretty 8081%Z);
           ServeForever], None))
  ∧ (PORT (Some 4300) {["PORT" := "eighty"]} = Raise ValueError
     ∧ script (Some 4300) free_host {["PORT" := "eighty"]}
       = ([StartThread], Some ValueError)).
Proof.
  split; [|split].
  - apply (proj1 (port_from_environment (Some 4300) free_host ∅)). reflexivity.
  - assert (denotes " +8_081 " 8081%Z) as Hden.
    { exists " ", "+", "8_081", " ". split; [reflexivity|].
      assert (blank " ") as Hblank.
      { intros ch Hin. simpl in Hin.
        repeat (apply elem_of_cons in Hin as [->|Hin]; [in_list|]).
        by apply elem_of_nil in Hin. }
      split; [exact Hblank|]. split; [exact Hblank|]. split.
      - apply groups_underscore; [in_list|]. apply groups_digit; [in_list|].
        apply groups_digit; [in_list|]. apply groups_last. in_list.
      - left. split; [by right|reflexivity]. }
    destruct (proj1 (proj2 (port_from_environment (Some 4300) free_host
                              {["PORT" := " +8_081 "]}))
                " +8_081 " 8081%Z) as [Hport Hscript].
    + reflexivity.
    + exact Hden.
    + intros n [= <-]. simpl. lia.
    + split; [exact Hport|]. apply Hscript; [lia|reflexivity].
  - apply (proj2 (proj2 (port_from_environment (Some 4300) free_host
                           {["PORT" := "eighty"]}))
             "eighty").
    + reflexivity.
    + intros (ch & Hin & Hd)%numeric_has_digit. simpl in Hin. unfold decimal_digit in Hd.
      repeat (apply elem_of_cons in Hin as [->|Hin];
              [repeat (apply elem_of_cons in Hd as [Hd|Hd]; [discriminate Hd|]);
               by apply elem_of_nil in Hd|]).
      by apply elem_of_nil in Hin.
Defined.

Example int_examples :
  int_of_str (Some 4300) "-5" = Ok (-5)%Z
  ∧ int_of_str (Some 4300) "+0007" = Ok 7%Z
  ∧ int_of_str (Some 4300) "5__0" = Raise ValueError
  ∧ int_of_str (Some 4300) "5_" = Raise ValueError
  ∧ int_of_str (Some 4300) "+ 5" = Raise ValueError
  ∧ int_of_str (Some 4300) "" = Raise ValueError
  ∧ int_of_str (Some 4300) "0x10" = Raise ValueError
  ∧ int_of_str (Some 3) "0001" = Raise ValueError.
Proof. repeat split; reflexivity. Qed.

Example port_out_of_range :
  script (Some 4300) free_host {["PORT" := "70000"]} = ([StartThread], Some OverflowError).
Proof. vm_compute. reflexivity. Qed.

Example port_in_use :
  script (Some 4300) busy_host ∅ = ([StartThread], Some OSError).
Proof. vm_compute. reflexivity. Qed.

(** ** The start of the script: further properties *)

Section MoreServer.

Lemma int_rstrip_prefix l t :
  int_rstrip (l +:+ t)
  = match int_rstrip t with
    | EmptyString => int_rstrip l
    | r => l +:+ r
    end.
Proof.
  induction l as [|a l IH].
  - change ("" +:+ t) with t. by destruct (int_rstrip t).
  - change (String a l +:+ t) with (String a (l +:+ t)).
    cbn [int_rstrip]. rewrite IH.
    destruct (int_rstrip t) as [|b r]; [done|].
    change (String a l +:+ String b r) with (String a (l +:+ String b r)).
    by destruct l.
Qed.

(** [int] does not see whitespace around its argument. *)
Lemma int_of_str_blank_around limit l s r :
  blank l → blank r → int_of_str limit (l +:+ s +:+ r) = int_of_str limit s.
Proof.
  intros Hl Hr.
  assert (int_lstrip (int_rstrip (l +:+ s +:+ r)) = int_lstrip (int_rstrip s)) as H.
  { rewrite int_rstrip_prefix, (int_rstrip_append s r Hr).
    destruct (int_rstrip s) as [|b t].
    - by rewrite (int_rstrip_blank l Hl).
    - by apply int_lstrip_append. }
  unfold int_of_str. by rewrite H.
Qed.

Lemma only_digits_groups s : only_digits s → digit_groups s.
Proof.
  intros [Hne H]. induction s as [|ch s IH]; [done|].
  assert (decimal_digit ch) as Hch by (apply H; by left).
  destruct s as [|ch' s']; [by constructor|].
  apply groups_digit; [done|]. apply IH; [done|].
  intros c Hc. apply H. by right.
Qed.

Lemma int_digits_positional s acc :
  (∀ ch, ch ∈ list_ascii_of_string s → decimal_digit ch) →
  int_digits true acc s
  = Some (acc * 10 ^ Z.of_nat (String.length s) + positional s)%Z.
Proof.
  revert acc. induction s as [|ch s IH]; intros acc H.
  - simpl. f_equal; lia.
  - cbn [int_digits]. rewrite (decimal_isdigit ch) by (apply H; by left).
    rewrite IH by (intros c Hc; apply H; by right).
    f_equal. cbn [String.length positional]. unfold digit_value, ord.
    rewrite Nat2Z.inj_succ, Z.pow_succ_r by lia. lia.
Qed.

Lemma count_digits_only s :
  (∀ ch, ch ∈ list_ascii_of_string s → decimal_digit ch) →
  count_digits s = String.length s.
Proof.
  induction s as [|ch s IH]; [done|]. intros H. simpl.
  rewrite (decimal_isdigit ch) by (apply H; by left).
  rewrite IH; [done|]. intros c Hc. apply H. by right.
Qed.

Lemma positional_nonneg s :
  (∀ ch, ch ∈ list_ascii_of_string s → decimal_digit ch) → (0 ≤ positional s)%Z.
Proof.
  induction s as [|ch s IH]; [done|]. intros H. cbn [positional].
  assert (0 ≤ Z.of_N (N_of_ascii ch) - 48)%Z.
  { specialize (H ch (list_elem_of_here _ _)). unfold decimal_digit in H.
    repeat (apply elem_of_cons in H as [->|H]; [done|]). by apply elem_of_nil in H. }
  assert (0 ≤ positional s)%Z by (apply IH; intros c Hc; apply H; by right).
  assert (0 ≤ 10 ^ Z.of_nat (String.length s))%Z by (apply Z.pow_nonneg; lia).
  nia.
Qed.

(** X16.  When PORT is a text of decimal digits only, the port is the
    number these digits denote, most significant first, provided the text
    is not longer than the interpreter's bound on digits. *)
Theorem port_of_decimal_digits (limit : option nat) (environ : gmap string string)
    (s : string) :
  environ !! "PORT" = Some s →
  only_digits s →
  (∀ n, limit = Some n → (String.length s ≤ n)%nat) →
  PORT limit environ = Ok (positional s) ∧ (0 ≤ positional s)%Z.
Proof.
  intros Henv Hd Hlimit. pose proof Hd as [Hne Hall].
  split; [|by apply positional_nonneg].
  pose proof (only_digits_groups s Hd) as Hg.
  destruct (digit_groups_rstrip s Hg) as [Hrs _].
  destruct (digit_groups_first s Hg) as (ch & s' & -> & Hch).
  unfold PORT, int_of_str. rewrite Henv, Hrs. cbn [int_lstrip].
  rewrite (decimal_not_space _ Hch).
  assert (match String ch s' with
          | String "+" r => (false, r)
          | String "-" r => (true, r)
          | _ => (false, String ch s')
          end = (false, String ch s')) as ->.
  { unfold decimal_digit in Hch.
    repeat (apply elem_of_cons in Hch as [->|Hch]; [done|]).
    by apply elem_of_nil in Hch. }
  unfold int_unsigned. rewrite (decimal_isdigit _ Hch).
  assert (int_digits false 0 (String ch s')
          = Some (positional (String ch s'))) as ->.
  { cbn [int_digits]. rewrite (decimal_isdigit _ Hch).
    rewrite int_digits_positional by (intros c Hc; apply Hall; by right).
    f_equal; cbn [positional]; unfold digit_value, ord; lia. }
  rewrite (count_digits_only _ Hall).
  destruct limit as [n|]; [|done].
  rewrite bool_decide_eq_false_2; [done|]. specialize (Hlimit n eq_refl). lia.
Qed.

(** X17.  Whitespace around the value of PORT does not matter: a value
    with TAB, LF, VT, FF, CR, space, NEL or NBSP characters before and
    after it gives the same port, or the same error, as the value
    itself. *)
Theorem port_ignores_surrounding_whitespace (limit : option nat)
    (bind : Z → option exn) (environ : gmap string string) (l s r : string) :
  blank l → blank r →
  PORT limit (<["PORT" := l +:+ s +:+ r]> environ)
  = PORT limit (<["PORT" := s]> environ)
  ∧ script limit bind (<["PORT" := l +:+ s +:+ r]> environ)
    = script limit bind (<["PORT" := s]> environ).
Proof.
  intros Hl Hr.
  assert (PORT limit (<["PORT" := l +:+ s +:+ r]> environ)
          = PORT limit (<["PORT" := s]> environ)) as H.
  { unfold PORT. rewrite !lookup_insert_eq. by apply int_of_str_blank_around. }
  split; [done|]. unfold script. by rewrite H.
Qed.

End MoreServer.

Lemma port_of_decimal_digits_witness :
  PORT (Some 4300) {["PORT" := "08080"]} = Ok (positional "08080")
  ∧ (0 ≤ positional "08080")%Z.
Proof.
  apply (port_of_decimal_digits (Some 4300) {["PORT" := "08080"]} "08080").
  - reflexivity.
  - split; [discriminate|]. intros ch Hin. simpl in Hin. unfold decimal_digit.
    repeat (apply elem_of_cons in Hin as [->|Hin]; [in_list|]).
    by apply elem_of_nil in Hin.
  - intros n [= <-]. simpl. lia.
Defined.

Lemma port_ignores_surrounding_whitespace_witness :
  PORT (Some 4300) (<["PORT" := "  " +:+ "8081" +:+ " "]> ∅)
  = PORT (Some 4300) (<["PORT" := "8081"]> ∅)
  ∧ script (Some 4300) free_host (<["PORT" := "  " +:+ "8081" +:+ " "]> ∅)
    = script (Some 4300) free_host (<["PORT" := "8081"]> ∅).
Proof.
  apply (port_ignores_surrounding_whitespace (Some 4300) free_host ∅ "  " "8081" " ").
  - intros ch Hin. simpl in Hin.
    repeat (apply elem_of_cons in Hin as [->|Hin]; [in_list|]).
    by apply elem_of_nil in Hin.
  - intros ch Hin. simpl in Hin.
    repeat (apply elem_of_cons in Hin as [->|Hin]; [in_list|]).
    by apply elem_of_nil in Hin.
Defined.

Example positional_value : positional "08080" = 8080%Z.
Proof. reflexivity. Qed.
